(** * LLM2Graph: the reasoning-graph schema of [main.py] and its export

    A shallow embedding of the pydantic models [Node], [Edge],
    [ReasoningGraph] and [Output] of [main.py], of the graph validator
    [ReasoningGraph.validate_graph], and of the [cyto] export document
    built in the [__main__] block, followed by the properties the
    specification states about them.

    Conventions of the embedding:
    - a Python [str] is the list of its Unicode code points ([list N]);
      the values of the fields have their declared types already (a [str]
      is a string, a kind is a member of its enumeration);
    - a Python [float] is a binary64 value ([spec_float] of the Standard
      Library together with its validity proof), compared as IEEE 754 does;
    - a Python [set] of strings is a [gset];
    - a raised exception is the [Raise] branch of [result]; the errors that
      pydantic collects field by field are the [Invalid] branch of
      [validation]. *)

From Stdlib Require Import ZArith NArith String Ascii List Bool Lia.
From Stdlib Require Import Floats.SpecFloat.
From stdpp Require Import base option list gmap sets fin_sets.

Local Open Scope list_scope.
Set Warnings "-clear-no-such-hyp".

(** ** Python strings *)

Abbreviation str := (list N).

(** [lit s] is the Python string written as the ASCII literal [s]: one code
    point per character. It is only applied to ASCII literals. *)
Definition lit (s : string) : str :=
  List.map N_of_ascii (list_ascii_of_string s).

(** [Py_UNICODE_ISSPACE]: the code points that [str.strip()] without an
    argument removes (CPython's [_PyUnicode_IsWhitespace]). *)
Definition Py_UNICODE_ISSPACE (c : N) : bool :=
  (((0x09 <=? c) && (c <=? 0x0D)) || ((0x1C <=? c) && (c <=? 0x20))
   || (c =? 0x85) || (c =? 0xA0) || (c =? 0x1680)
   || ((0x2000 <=? c) && (c <=? 0x200A))
   || (c =? 0x2028) || (c =? 0x2029) || (c =? 0x202F) || (c =? 0x205F)
   || (c =? 0x3000))%N.

Fixpoint lstrip (s : str) : str :=
  match s with
  | [] => []
  | c :: s' => if Py_UNICODE_ISSPACE c then lstrip s' else s
  end.

Definition rstrip (s : str) : str := reverse (lstrip (reverse s)).

(** [v.strip()] *)
Definition strip (s : str) : str := rstrip (lstrip s).

(** ** Python floats *)

Definition prec : Z := 53.
Definition emax : Z := 1024.

Record float := Float {
  sf : spec_float;
  sf_valid : valid_binary prec emax sf = true
}.

(** [0.0], [-0.0], [1.0], [1.5], [-0.1], [0.5] and [inf] *)
Definition f_zero : float := Float (S754_zero false) eq_refl.
Definition f_neg_zero : float := Float (S754_zero true) eq_refl.
Definition f_one : float := Float (S754_finite false 4503599627370496 (-52)) eq_refl.
Definition f_1_5 : float := Float (S754_finite false 6755399441055744 (-52)) eq_refl.
Definition f_neg_0_1 : float := Float (S754_finite true 7205759403792794 (-56)) eq_refl.
Definition f_0_5 : float := Float (S754_finite false 4503599627370496 (-53)) eq_refl.
Definition f_inf : float := Float (S754_infinity false) eq_refl.

(** [x < y], [x <= y] and [x == y] on floats; all are [false] when an
    operand is a NaN. *)
Definition float_lt (x y : float) : bool := SFltb (sf x) (sf y).
Definition float_le (x y : float) : bool := SFleb (sf x) (sf y).
Definition float_eq (x y : float) : bool := SFeqb (sf x) (sf y).

(** ** Exceptions and validation errors *)

(** One step of an error location, as pydantic reports it: a field name or
    a list index. *)
Inductive LocItem :=
| Key (k : string)
| Idx (i : nat).

(** The constraint a value broke: [min_length], [le], [ge], or a
    [ValueError] raised by a validator of [main.py], with its message. *)
Inductive ErrorType :=
| string_too_short (min_length : nat)
| less_than_equal (le : float)
| greater_than_equal (ge : float)
| value_error (msg : str).

Record ErrorDetails := {
  loc : list LocItem;
  err : ErrorType
}.

(** The exceptions of the program, by where they can come from: a validator
    of [main.py] raises [ValueError]; the construction of a model raises
    pydantic's [ValidationError]; reading a dumped document raises
    [KeyError], [TypeError] or [AttributeError]. *)
Inductive value_exn :=
| ValueError (msg : str).

Inductive validation_exn :=
| ValidationError (errors : list ErrorDetails).

Inductive lookup_exn :=
| KeyError (key : str)
| TypeError
| AttributeError.

Inductive result (E A : Type) :=
| Ok (a : A)
| Raise (e : E).
Arguments Ok {E A} a.
Arguments Raise {E A} e.

#[global] Instance result_ret {E} : MRet (result E) := fun _ a => Ok a.
#[global] Instance result_bind {E} : MBind (result E) := fun _ _ f m =>
  match m with
  | Ok a => f a
  | Raise e => Raise e
  end.
#[global] Instance result_fmap {E} : FMap (result E) := fun _ _ f m =>
  match m with
  | Ok a => Ok (f a)
  | Raise e => Raise e
  end.

(** What pydantic's validators return: the validated value, or every error
    found (validation of a model goes on after a field fails). *)
Inductive validation (A : Type) :=
| Valid (a : A)
| Invalid (errs : list ErrorDetails).
Arguments Valid {A} a.
Arguments Invalid {A} errs.

Definition errors_of {A} (v : validation A) : list ErrorDetails :=
  match v with
  | Valid _ => []
  | Invalid errs => errs
  end.

(** Prefix the location of an error with the field or index it was found
    under. *)
Definition under (l : LocItem) (e : ErrorDetails) : ErrorDetails :=
  {| loc := l :: loc e; err := err e |}.

Definition in_field {A} (l : LocItem) (v : validation A) : validation A :=
  match v with
  | Valid a => Valid a
  | Invalid errs => Invalid (List.map (under l) errs)
  end.

(** A validator function of the source that raises [ValueError] is reported
    as a [value_error] at the place it ran. *)
Definition run_validator {A} (r : result value_exn A) : validation A :=
  match r with
  | Ok a => Valid a
  | Raise (ValueError msg) => Invalid [ {| loc := []; err := value_error msg |} ]
  end.

(** [Model.model_validate]: raise [ValidationError] with the collected
    errors. *)
Definition raise_errors {A} (v : validation A) : result validation_exn A :=
  match v with
  | Valid a => Ok a
  | Invalid errs => Raise (ValidationError errs)
  end.

(** ** Schema *)

Inductive NodeType := CLAIM | EVIDENCE | ASSUMPTION.

Inductive EdgeType := SUPPORTS | CONTRADICTS | DEPENDS_ON | IMPLIES.

Definition NodeType_value (t : NodeType) : str :=
  match t with
  | CLAIM => lit "Claim"
  | EVIDENCE => lit "Evidence"
  | ASSUMPTION => lit "Assumption"
  end.

Definition EdgeType_value (t : EdgeType) : str :=
  match t with
  | SUPPORTS => lit "supports"
  | CONTRADICTS => lit "contradicts"
  | DEPENDS_ON => lit "depends-on"
  | IMPLIES => lit "implies"
  end.

Module Node.

Record t := Build {
  id : str;
  type : NodeType;
  text : str;
  source : option str;
  confidence : option float
}.

(** [@field_validator("id") id_not_empty] *)
Definition id_not_empty (v : str) : result value_exn str :=
  let v := strip v in
  match v with
  | [] => Raise (ValueError (lit "id must be non-empty"))
  | _ => Ok v
  end.

(** [id: str = Field(...)] followed by its field validator *)
Definition validate_id (v : str) : validation str :=
  in_field (Key "id") (run_validator (id_not_empty v)).

(** [text: str = Field(..., min_length=1)] *)
Definition validate_text (v : str) : validation str :=
  if (length v <? 1)%nat
  then Invalid [ {| loc := [Key "text"]; err := string_too_short 1 |} ]
  else Valid v.

(** [confidence: Optional[float] = Field(default=None, ge=0.0, le=1.0)]:
    [None] is accepted as it is; a float must satisfy [v <= 1.0] and
    [v >= 0.0], which a NaN does not. *)
Definition validate_confidence (v : option float) : validation (option float) :=
  match v with
  | None => Valid None
  | Some x =>
      if negb (float_le x f_one)
      then Invalid [ {| loc := [Key "confidence"]; err := less_than_equal f_one |} ]
      else if negb (float_le f_zero x)
      then Invalid [ {| loc := [Key "confidence"]; err := greater_than_equal f_zero |} ]
      else Valid (Some x)
  end.

(** Validation of the fields of a node, in declaration order; [type] and
    [source] carry no constraint beyond their types. *)
Definition validate (n : t) : validation t :=
  match validate_id (id n), validate_text (text n),
        validate_confidence (confidence n) with
  | Valid i, Valid x, Valid c =>
      Valid {| id := i; type := type n; text := x;
               source := source n; confidence := c |}
  | vi, vx, vc => Invalid (errors_of vi ++ errors_of vx ++ errors_of vc)
  end.

Definition model_validate (n : t) : result validation_exn t :=
  raise_errors (validate n).

(** [Node(id=..., type=..., text=..., source=..., confidence=...)] *)
Definition new (id : str) (type : NodeType) (text : str)
    (source : option str) (confidence : option float) :
    result validation_exn t :=
  model_validate (Build id type text source confidence).

End Node.

Module Edge.

Record t := Build {
  source : str;
  target : str;
  type : EdgeType
}.

(** The fields of an edge carry no constraint beyond their types. *)
Definition validate (e : t) : validation t := Valid e.

Definition new (source target : str) (type : EdgeType) :
    result validation_exn t :=
  raise_errors (validate (Build source target type)).

End Edge.

Module ReasoningGraph.

Record t := Build {
  nodes : list Node.t;
  edges : list Edge.t
}.

(** [ids = [n.id for n in self.nodes]] *)
Definition ids (self : t) : list str := Node.id <$> nodes self.

(** The loop over [self.edges]: the first edge with an endpoint outside
    [id_set] raises, its source being looked at before its target. *)
Fixpoint check_edges (id_set : gset str) (es : list Edge.t) :
    result value_exn unit :=
  match es with
  | [] => Ok tt
  | e :: es' =>
      if negb (bool_decide (Edge.source e ∈ id_set))
      then Raise (ValueError
             (lit "Edge source '" ++ Edge.source e ++ lit "' not found in nodes"))
      else if negb (bool_decide (Edge.target e ∈ id_set))
      then Raise (ValueError
             (lit "Edge target '" ++ Edge.target e ++ lit "' not found in nodes"))
      else check_edges id_set es'
  end.

(** [@model_validator(mode="after") validate_graph] *)
Definition validate_graph (self : t) : result value_exn t :=
  let ids := ids self in
  if negb (length ids =? size (list_to_set ids : gset str))%nat
  then Raise (ValueError (lit "Duplicate node ids are not allowed"))
  else
    let id_set : gset str := list_to_set ids in
    match check_edges id_set (edges self) with
    | Raise e => Raise e
    | Ok _ => Ok self
    end.

(** Validation of the items of [nodes], each under its index; every item
    is validated, also after one has failed. *)
Fixpoint validate_nodes (i : nat) (l : list Node.t) : validation (list Node.t) :=
  match l with
  | [] => Valid []
  | n :: l' =>
      match in_field (Idx i) (Node.validate n), validate_nodes (S i) l' with
      | Valid n', Valid l'' => Valid (n' :: l'')
      | vn, vl => Invalid (errors_of vn ++ errors_of vl)
      end
  end.

Fixpoint validate_edges (i : nat) (l : list Edge.t) : validation (list Edge.t) :=
  match l with
  | [] => Valid []
  | e :: l' =>
      match in_field (Idx i) (Edge.validate e), validate_edges (S i) l' with
      | Valid e', Valid l'' => Valid (e' :: l'')
      | ve, vl => Invalid (errors_of ve ++ errors_of vl)
      end
  end.

(** Validation of a candidate graph: the fields first, and the
    [mode="after"] validator only when no field failed. *)
Definition validate (g : t) : validation t :=
  match in_field (Key "nodes") (validate_nodes 0 (nodes g)),
        in_field (Key "edges") (validate_edges 0 (edges g)) with
  | Valid ns, Valid es => run_validator (validate_graph (Build ns es))
  | vn, ve => Invalid (errors_of vn ++ errors_of ve)
  end.

Definition model_validate (g : t) : result validation_exn t :=
  raise_errors (validate g).

(** [ReasoningGraph(nodes=..., edges=...)] on candidate data *)
Definition new (nodes : list Node.t) (edges : list Edge.t) :
    result validation_exn t :=
  model_validate (Build nodes edges).

End ReasoningGraph.

Module Output.

Record t := Build {
  text : str;
  graph : ReasoningGraph.t
}.

(** [text: str = Field(...)] has no constraint beyond its type; [graph]
    is validated as a [ReasoningGraph]. *)
Definition validate (o : t) : validation t :=
  match in_field (Key "graph") (ReasoningGraph.validate (graph o)) with
  | Valid g => Valid {| text := text o; graph := g |}
  | Invalid errs => Invalid errs
  end.

(** [Output.model_validate], which [responses.parse(text_format=Output)]
    runs on the collaborator's answer *)
Definition model_validate (o : t) : result validation_exn t :=
  raise_errors (validate o).

(** [Output(text=..., graph=...)] on candidate data *)
Definition new (text : str) (graph : ReasoningGraph.t) :
    result validation_exn t :=
  model_validate (Build text graph).

End Output.

(** ** The dumped document and the export *)

(** The Python values that [model_dump(mode="json")] returns and that the
    export document is built from; a [dict] keeps its items in insertion
    order. *)
#[warnings="-register-all"]
Inductive pyval :=
| PyNone
| PyStr (s : str)
| PyFloat (x : float)
| PyList (l : list pyval)
| PyDict (d : list (str * pyval)).

Fixpoint dict_lookup (k : str) (d : list (str * pyval)) : option pyval :=
  match d with
  | [] => None
  | (k', v) :: d' => if bool_decide (k = k') then Some v else dict_lookup k d'
  end.

(** [v[k]] for a string key [k] *)
Definition getitem (v : pyval) (k : str) : result lookup_exn pyval :=
  match v with
  | PyDict d =>
      match dict_lookup k d with
      | Some x => Ok x
      | None => Raise (KeyError k)
      end
  | _ => Raise TypeError
  end.

(** [v.get(k)] *)
Definition get (v : pyval) (k : str) : result lookup_exn pyval :=
  match v with
  | PyDict d =>
      match dict_lookup k d with
      | Some x => Ok x
      | None => Ok PyNone
      end
  | _ => Raise AttributeError
  end.

(** [for x in v]: the items of a list, the keys of a dict, the characters
    of a string. *)
Definition py_iter (v : pyval) : result lookup_exn (list pyval) :=
  match v with
  | PyList l => Ok l
  | PyDict d => Ok (List.map (fun kv => PyStr (fst kv)) d)
  | PyStr s => Ok (List.map (fun c => PyStr [c]) s)
  | PyNone | PyFloat _ => Raise TypeError
  end.

Definition dump_str (o : option str) : pyval :=
  match o with
  | None => PyNone
  | Some s => PyStr s
  end.

(** A validated confidence lies in [0, 1], so how the JSON mode writes
    [inf] and [nan] does not arise. *)
Definition dump_float (o : option float) : pyval :=
  match o with
  | None => PyNone
  | Some x => PyFloat x
  end.

(** [model_dump(mode="json")]: the fields in declaration order, an
    enumeration member as its value, an unset optional field as [None]. *)
Definition Node_model_dump (n : Node.t) : pyval :=
  PyDict [ (lit "id", PyStr (Node.id n));
           (lit "type", PyStr (NodeType_value (Node.type n)));
           (lit "text", PyStr (Node.text n));
           (lit "source", dump_str (Node.source n));
           (lit "confidence", dump_float (Node.confidence n)) ].

Definition Edge_model_dump (e : Edge.t) : pyval :=
  PyDict [ (lit "source", PyStr (Edge.source e));
           (lit "target", PyStr (Edge.target e));
           (lit "type", PyStr (EdgeType_value (Edge.type e))) ].

Definition ReasoningGraph_model_dump (g : ReasoningGraph.t) : pyval :=
  PyDict [ (lit "nodes", PyList (List.map Node_model_dump (ReasoningGraph.nodes g)));
           (lit "edges", PyList (List.map Edge_model_dump (ReasoningGraph.edges g))) ].

Definition Output_model_dump (o : Output.t) : pyval :=
  PyDict [ (lit "text", PyStr (Output.text o));
           (lit "graph", ReasoningGraph_model_dump (Output.graph o)) ].

Section ExportTransform.

(** [format(v, "")], which a replacement field of an f-string applies to
    its value. Only its result on a [str], the string itself, is fixed
    here. *)
Variable py_format : pyval -> str.
Hypothesis py_format_str : forall s, py_format (PyStr s) = s.

(** One item of ["nodes"] in [cyto] *)
Definition node_element (n : pyval) : result lookup_exn pyval :=
  i ← getitem n (lit "id");
  label ← getitem n (lit "text");
  ty ← getitem n (lit "type");
  src ← get n (lit "source");
  conf ← get n (lit "confidence");
  mret (PyDict [ (lit "data",
          PyDict [ (lit "id", i);
                   (lit "label", label);
                   (lit "type", ty);
                   (lit "source", src);
                   (lit "confidence", conf) ]) ]).

(** [f'{e["type"]}:{e["source"]}->{e["target"]}'] *)
Definition edge_id (e : pyval) : result lookup_exn str :=
  ty ← getitem e (lit "type");
  src ← getitem e (lit "source");
  tgt ← getitem e (lit "target");
  mret (py_format ty ++ lit ":" ++ py_format src ++ lit "->" ++ py_format tgt).

(** One item of ["edges"] in [cyto] *)
Definition edge_element (e : pyval) : result lookup_exn pyval :=
  i ← edge_id e;
  src ← getitem e (lit "source");
  tgt ← getitem e (lit "target");
  ty ← getitem e (lit "type");
  mret (PyDict [ (lit "data",
          PyDict [ (lit "id", PyStr i);
                   (lit "source", src);
                   (lit "target", tgt);
                   (lit "type", ty) ]) ]).

(** [cyto = {...}] as a function of [data] *)
Definition cyto (data : pyval) : result lookup_exn pyval :=
  text ← getitem data (lit "text");
  graph ← getitem data (lit "graph");
  ns ← getitem graph (lit "nodes");
  ns ← py_iter ns;
  node_elements ← mapM node_element ns;
  graph ← getitem data (lit "graph");
  es ← getitem graph (lit "edges");
  es ← py_iter es;
  edge_elements ← mapM edge_element es;
  mret (PyDict [ (lit "text", text);
                 (lit "elements",
                   PyDict [ (lit "nodes", PyList node_elements);
                            (lit "edges", PyList edge_elements) ]) ]).

(** The export of a constructed [Output]:
    [data = out.model_dump(mode="json")] and then [cyto]. *)
Definition export (out : Output.t) : result lookup_exn pyval :=
  cyto (Output_model_dump out).

End ExportTransform.

(** ** The words of the specification *)

Definition whitespace (c : N) : Prop := Py_UNICODE_ISSPACE c = true.

(** [r] is [s] with its leading and trailing whitespace removed. *)
Definition trimmed (s r : str) : Prop :=
  ∃ l t, s = l ++ r ++ t ∧ Forall whitespace l ∧ Forall whitespace t
         ∧ (∀ c, head r = Some c → ¬ whitespace c)
         ∧ (∀ c, last r = Some c → ¬ whitespace c).

(** Two entries of the node sequence have the same id. *)
Definition has_duplicate_ids (ns : list Node.t) : Prop :=
  ∃ i j a b, i ≠ j ∧ ns !! i = Some a ∧ ns !! j = Some b ∧ Node.id a = Node.id b.

Definition pairwise_distinct_ids (ns : list Node.t) : Prop :=
  ∀ i j a b, i ≠ j → ns !! i = Some a → ns !! j = Some b → Node.id a ≠ Node.id b.

(** [x] is the id of some node of [g]. *)
Definition node_id_of (g : ReasoningGraph.t) (x : str) : Prop :=
  Exists (λ n, Node.id n = x) (ReasoningGraph.nodes g).

(** Both ends of [e] are node ids of [g]. *)
Definition resolved (g : ReasoningGraph.t) (e : Edge.t) : Prop :=
  node_id_of g (Edge.source e) ∧ node_id_of g (Edge.target e).

Definition node_id_of_dec (g : ReasoningGraph.t) (x : str) :
    Decision (node_id_of g x) :=
  Exists_dec (λ n, Node.id n = x) (ReasoningGraph.nodes g).
#[local] Existing Instance node_id_of_dec.

Definition resolved_dec (g : ReasoningGraph.t) (e : Edge.t) :
    Decision (resolved g e) :=
  and_dec (node_id_of_dec g (Edge.source e)) (node_id_of_dec g (Edge.target e)).
#[local] Existing Instance resolved_dec.

Definition duplicate_id_error : value_exn :=
  ValueError (lit "Duplicate node ids are not allowed").

Definition source_not_found (x : str) : value_exn :=
  ValueError (lit "Edge source '" ++ x ++ lit "' not found in nodes").

Definition target_not_found (x : str) : value_exn :=
  ValueError (lit "Edge target '" ++ x ++ lit "' not found in nodes").

(** A dangling-reference error naming the id [x] *)
Definition dangling_reference_error (x : str) (e : value_exn) : Prop :=
  e = source_not_found x ∨ e = target_not_found x.

(** The errors of the fields of a node *)
Definition empty_id_error : ErrorDetails :=
  {| loc := [Key "id"]; err := value_error (lit "id must be non-empty") |}.

Definition empty_text_error : ErrorDetails :=
  {| loc := [Key "text"]; err := string_too_short 1 |}.

Definition confidence_below_error : ErrorDetails :=
  {| loc := [Key "confidence"]; err := greater_than_equal f_zero |}.

Definition confidence_above_error : ErrorDetails :=
  {| loc := [Key "confidence"]; err := less_than_equal f_one |}.

(** The confidence is absent or lies in the closed interval [0, 1]. *)
Definition confidence_in_range (c : option float) : Prop :=
  match c with
  | None => True
  | Some v => float_le f_zero v = true ∧ float_le v f_one = true
  end.

(** The node that construction stores for the candidate [n]: the same
    fields, the id stripped. *)
Definition stored (n : Node.t) : Node.t :=
  Node.Build (strip (Node.id n)) (Node.type n) (Node.text n) (Node.source n)
    (Node.confidence n).

(** The duplicate-id error as construction of a graph reports it *)
Definition duplicate_id_errors : validation_exn :=
  ValidationError
    [ {| loc := []; err := value_error (lit "Duplicate node ids are not allowed") |} ].

(** The id that the export gives the element of an edge:
    ["<kind>:<source>-><target>"] *)
Definition edge_element_id (e : Edge.t) : str :=
  EdgeType_value (Edge.type e) ++ lit ":" ++ Edge.source e ++ lit "->"
    ++ Edge.target e.

(** The element that the export document holds for a node *)
Definition node_data (n : Node.t) : list (str * pyval) :=
  [ (lit "id", PyStr (Node.id n));
    (lit "label", PyStr (Node.text n));
    (lit "type", PyStr (NodeType_value (Node.type n)));
    (lit "source", match Node.source n with
                   | None => PyNone
                   | Some s => PyStr s
                   end);
    (lit "confidence", match Node.confidence n with
                       | None => PyNone
                       | Some v => PyFloat v
                       end) ].

Definition node_record (n : Node.t) : pyval :=
  PyDict [ (lit "data", PyDict (node_data n)) ].

(** The element that the export document holds for an edge *)
Definition edge_record (e : Edge.t) : pyval :=
  PyDict [ (lit "data",
            PyDict [ (lit "id", PyStr (edge_element_id e));
                     (lit "source", PyStr (Edge.source e));
                     (lit "target", PyStr (Edge.target e));
                     (lit "type", PyStr (EdgeType_value (Edge.type e))) ]) ].

(** The export document of an output: one element per node and one per
    edge, in the order of the sequences of the graph. *)
Definition document (o : Output.t) : pyval :=
  PyDict [ (lit "text", PyStr (Output.text o));
           (lit "elements",
             PyDict [ (lit "nodes",
                        PyList (node_record <$> ReasoningGraph.nodes (Output.graph o)));
                      (lit "edges",
                        PyList (edge_record <$> ReasoningGraph.edges (Output.graph o))) ]) ].

(** ** Example data: the end-to-end scenario of the specification *)

Definition node_c1 : Node.t :=
  Node.Build (lit "c1") CLAIM (lit "off-by-one bug") None None.
Definition node_e1 : Node.t :=
  Node.Build (lit "e1") EVIDENCE (lit "IndexError on n=0") None None.
Definition node_c2 : Node.t :=
  Node.Build (lit "c2") CLAIM (lit "loop bound is n+1") (Some (lit "code:L2")) (Some f_0_5).
Definition edge_e1_c1 : Edge.t := Edge.Build (lit "e1") (lit "c1") SUPPORTS.
Definition edge_c2_c1 : Edge.t := Edge.Build (lit "c2") (lit "c1") SUPPORTS.
Definition edge_x_c1 : Edge.t := Edge.Build (lit "x") (lit "c1") IMPLIES.
Definition edge_c1_y : Edge.t := Edge.Build (lit "c1") (lit "y") DEPENDS_ON.

Definition scenario_graph : ReasoningGraph.t :=
  ReasoningGraph.Build [node_c1; node_e1] [edge_e1_c1].

(** Split a membership in an explicit list into its cases. *)
Ltac member_cases H :=
  repeat match type of H with
         | _ ∈ _ :: _ => apply elem_of_cons in H as [H|H]
         | _ ∈ [] => by apply elem_of_nil in H
         end.

(** Decide a property of concrete data by running its decision procedure. *)
Ltac by_compute := apply (bool_decide_unpack _); vm_compute; exact I.

(** [supports] from a claim to a claim, [implies] from evidence to a claim,
    [depends-on] from a claim to evidence *)
Definition mistyped_graph : ReasoningGraph.t :=
  ReasoningGraph.Build [node_c1; node_c2; node_e1]
    [edge_c2_c1;
     Edge.Build (lit "e1") (lit "c1") IMPLIES;
     Edge.Build (lit "c1") (lit "e1") DEPENDS_ON].

(** A [format] for examples: the string itself on a [str]; the export
    formats nothing else. *)
Definition format_of_str (v : pyval) : str :=
  match v with
  | PyStr s => s
  | _ => []
  end.

(** ** What construction guarantees, and how a document is read back *)

(** The candidate node [n] is rejected on its own. *)
Definition rejected (n : Node.t) : Prop :=
  ∃ errs, Node.validate n = Invalid errs.

(** What holds of a node that construction returned: an id that is not empty
    and neither starts nor ends with whitespace, a text that is not empty,
    and no confidence below 0 or above 1. *)
Definition well_formed_node (n : Node.t) : Prop :=
  Node.id n ≠ []
  ∧ (∀ c, head (Node.id n) = Some c → ¬ whitespace c)
  ∧ (∀ c, last (Node.id n) = Some c → ¬ whitespace c)
  ∧ Node.text n ≠ []
  ∧ (∀ v, Node.confidence n = Some v →
          float_lt v f_zero = false ∧ float_lt f_one v = false).

(** The two ends of an edge, its kind left out *)
Definition endpoints (e : Edge.t) : str * str :=
  (Edge.source e, Edge.target e).

(** The place of an error of item [j] of [nodes]: the place [e] has within
    the node, under the index, under the field. *)
Definition at_node (j : nat) (e : ErrorDetails) : ErrorDetails :=
  under (Key "nodes") (under (Idx j) e).

(** Reading a document the way a renderer does:
    [[el["data"][k] for el in doc["elements"][coll]]] *)
Definition element_field (k : str) (el : pyval) : result lookup_exn pyval :=
  d ← getitem el (lit "data");
  getitem d k.

Definition element_fields (doc : pyval) (coll k : str) :
    result lookup_exn (list pyval) :=
  els ← getitem doc (lit "elements");
  c ← getitem els coll;
  items ← py_iter c;
  mapM (element_field k) items.

(** [d.get(k)] on the items of a dict: the value, or [None] *)
Definition lookup_or_none (k : str) (d : list (str * pyval)) : pyval :=
  match dict_lookup k d with
  | Some v => v
  | None => PyNone
  end.

(** Two edges whose element ids coincide: the ["->"] of the id can come
    from an end as well as from the separator. *)
Definition edge_ab_c : Edge.t := Edge.Build (lit "a->b") (lit "c") SUPPORTS.
Definition edge_a_bc : Edge.t := Edge.Build (lit "a") (lit "b->c") SUPPORTS.

(** The code points of [':'], ['-'] and ['>'] *)
Definition colon : N := 58.
Definition hyphen : N := 45.
Definition greater : N := 62.

(** ** Stripping *)

Lemma lstrip_app_whitespace (l r : str) :
  Forall whitespace l → lstrip (l ++ r) = lstrip r.
Proof.
  induction 1 as [|c l Hc _ IH]; simpl; [done|].
  unfold whitespace in Hc. by rewrite Hc.
Qed.

Lemma lstrip_head (r : str) :
  (∀ c, head r = Some c → ¬ whitespace c) → lstrip r = r.
Proof.
  destruct r as [|c r]; simpl; [done|]. intros H.
  destruct (Py_UNICODE_ISSPACE c) eqn:Hc; [|done].
  exfalso. by apply (H c).
Qed.

Lemma lstrip_whitespace (l : str) : Forall whitespace l → lstrip l = [].
Proof.
  intros H. rewrite <- (app_nil_r l). by rewrite lstrip_app_whitespace.
Qed.

Lemma lstrip_split (s : str) :
  ∃ l, s = l ++ lstrip s ∧ Forall whitespace l
       ∧ (∀ c, head (lstrip s) = Some c → ¬ whitespace c).
Proof.
  induction s as [|c s (l & Hs & Hl & Hh)]; simpl.
  - exists []. by repeat split.
  - destruct (Py_UNICODE_ISSPACE c) eqn:Hc.
    + exists (c :: l). repeat split; [simpl; congruence | by constructor | done].
    + exists []. repeat split; [done|].
      intros c' [= <-]. unfold whitespace. congruence.
Qed.

Lemma rstrip_split (s : str) :
  ∃ t, s = rstrip s ++ t ∧ Forall whitespace t
       ∧ (∀ c, last (rstrip s) = Some c → ¬ whitespace c).
Proof.
  unfold rstrip. destruct (lstrip_split (reverse s)) as (l & Hs & Hl & Hh).
  exists (reverse l). repeat split.
  - rewrite <- reverse_app, <- Hs. by rewrite reverse_involutive.
  - by apply Forall_reverse.
  - intros c. rewrite last_reverse. apply Hh.
Qed.

Lemma rstrip_app_whitespace (r t : str) :
  Forall whitespace t → (∀ c, last r = Some c → ¬ whitespace c) →
  rstrip (r ++ t) = r.
Proof.
  intros Ht Hr. unfold rstrip. rewrite reverse_app.
  rewrite lstrip_app_whitespace by by apply Forall_reverse.
  rewrite lstrip_head; [apply reverse_involutive|].
  intros c. rewrite head_reverse. apply Hr.
Qed.

(** [strip] computes the trimmed string, and nothing else is one. *)
Lemma strip_trimmed (s r : str) : trimmed s r ↔ strip s = r.
Proof.
  split.
  - intros (l & t & -> & Hl & Ht & Hh & Hla). unfold strip.
    rewrite lstrip_app_whitespace by done.
    destruct r as [|c r].
    + simpl. rewrite lstrip_whitespace by done. done.
    + rewrite lstrip_head by (simpl; apply Hh).
      by apply rstrip_app_whitespace.
  - intros <-. unfold strip.
    destruct (lstrip_split s) as (l & Hs & Hl & Hh).
    destruct (rstrip_split (lstrip s)) as (t & Hm & Ht & Hla).
    exists l, t. repeat split; [congruence | done | done | | done].
    intros c Hc. apply Hh. rewrite Hm.
    destruct (rstrip (lstrip s)); [done|]. exact Hc.
Qed.

Lemma strip_whitespace (s : str) : Forall whitespace s ↔ strip s = [].
Proof.
  rewrite <- strip_trimmed. split.
  - intros H. exists s, []. simpl. rewrite app_nil_r. by repeat split.
  - intros (l & t & -> & Hl & Ht & _). simpl. by apply Forall_app.
Qed.

Example strip_examples :
  strip (lit "  c1 ") = lit "c1"
  ∧ strip ([0x09; 0xA0; 0x3000] ++ lit "a b" ++ [0x0A; 0x1F; 0x2028])%N = lit "a b"
  ∧ strip (lit "   ") = []
  ∧ strip ([0x200B] ++ lit " x")%N = ([0x200B] ++ lit " x")%N.
Proof. repeat split. Qed.

Lemma strip_idemp (s : str) : strip (strip s) = strip s.
Proof.
  apply strip_trimmed.
  destruct (proj2 (strip_trimmed s (strip s)) eq_refl) as (l & t & _ & _ & _ & Hh & Hl).
  exists [], []. rewrite app_nil_r. by repeat split.
Qed.

(** ** The graph validator *)

Lemma size_list_to_set_le (l : list str) :
  size (list_to_set l : gset str) ≤ length l.
Proof.
  induction l as [|x l IH].
  - by rewrite list_to_set_nil, size_empty.
  - rewrite list_to_set_cons, size_union_alt, size_singleton. cbn [length].
    assert (size (list_to_set l ∖ {[x]} : gset str)
            ≤ size (list_to_set l : gset str))
      by (apply subseteq_size; set_solver).
    lia.
Qed.

(** [len(ids) == len(set(ids))] holds exactly when no id occurs twice. *)
Lemma length_size_NoDup (l : list str) :
  length l = size (list_to_set l : gset str) ↔ NoDup l.
Proof.
  split; [|intros; symmetry; by apply size_list_to_set].
  induction l as [|x l IH]; [constructor|].
  rewrite list_to_set_cons. cbn [length].
  intros H. destruct (decide (x ∈ l)) as [Hin|Hnin].
  - exfalso.
    assert ({[x]} ∪ list_to_set l = (list_to_set l : gset str)) as Heq
      by set_solver.
    rewrite Heq in H. pose proof (size_list_to_set_le l). lia.
  - constructor; [done|]. apply IH.
    rewrite size_union, size_singleton in H by set_solver. lia.
Qed.

Lemma has_duplicate_ids_not_NoDup (g : ReasoningGraph.t) :
  has_duplicate_ids (ReasoningGraph.nodes g) → ¬ NoDup (ReasoningGraph.ids g).
Proof.
  intros (i & j & a & b & Hij & Ha & Hb & Hab) Hnd.
  apply Hij. eapply (proj1 (NoDup_alt _) Hnd i j (Node.id a));
    unfold ReasoningGraph.ids; rewrite list_lookup_fmap.
  - by rewrite Ha.
  - rewrite Hb. simpl. by rewrite Hab.
Qed.

Lemma pairwise_distinct_ids_NoDup (g : ReasoningGraph.t) :
  pairwise_distinct_ids (ReasoningGraph.nodes g) ↔ NoDup (ReasoningGraph.ids g).
Proof.
  unfold ReasoningGraph.ids. rewrite NoDup_alt. split.
  - intros H i j x Hi Hj. rewrite list_lookup_fmap in Hi, Hj.
    destruct (ReasoningGraph.nodes g !! i) as [a|] eqn:Ha; [|done].
    destruct (ReasoningGraph.nodes g !! j) as [b|] eqn:Hb; [|done].
    simpl in *. destruct (decide (i = j)) as [|Hne]; [done|].
    exfalso. apply (H i j a b Hne Ha Hb). congruence.
  - intros H i j a b Hne Ha Hb Hab. apply Hne.
    apply (H i j (Node.id a)); rewrite list_lookup_fmap.
    + by rewrite Ha.
    + rewrite Hb. simpl. by rewrite Hab.
Qed.

Lemma node_id_of_ids (g : ReasoningGraph.t) (x : str) :
  node_id_of g x ↔ x ∈ (list_to_set (ReasoningGraph.ids g) : gset str).
Proof.
  rewrite elem_of_list_to_set. unfold ReasoningGraph.ids, node_id_of.
  rewrite Exists_exists, list_elem_of_fmap. naive_solver.
Qed.

Lemma validate_graph_duplicate (g : ReasoningGraph.t) :
  ¬ NoDup (ReasoningGraph.ids g) →
  ReasoningGraph.validate_graph g = Raise duplicate_id_error.
Proof.
  intros H. unfold ReasoningGraph.validate_graph.
  destruct (Nat.eqb_spec (length (ReasoningGraph.ids g))
              (size (list_to_set (ReasoningGraph.ids g) : gset str))) as [Heq|_];
    [|done].
  by apply length_size_NoDup in Heq.
Qed.

Lemma validate_graph_NoDup (g : ReasoningGraph.t) :
  NoDup (ReasoningGraph.ids g) →
  ReasoningGraph.validate_graph g =
    match ReasoningGraph.check_edges (list_to_set (ReasoningGraph.ids g))
            (ReasoningGraph.edges g) with
    | Raise e => Raise e
    | Ok _ => Ok g
    end.
Proof.
  intros H. unfold ReasoningGraph.validate_graph.
  apply length_size_NoDup in H. rewrite H, Nat.eqb_refl. done.
Qed.

Lemma check_edges_resolved (g : ReasoningGraph.t) (es : list Edge.t) :
  Forall (resolved g) es →
  ReasoningGraph.check_edges (list_to_set (ReasoningGraph.ids g)) es = Ok tt.
Proof.
  induction 1 as [|e es [Hs Ht] _ IH]; simpl; [done|].
  apply node_id_of_ids in Hs, Ht.
  by rewrite !bool_decide_eq_true_2.
Qed.

(** The first edge with a missing end decides the error: its source when
    that is missing, its target otherwise. *)
Lemma check_edges_first (g : ReasoningGraph.t) (pre post : list Edge.t) (e : Edge.t) :
  Forall (resolved g) pre →
  ReasoningGraph.check_edges (list_to_set (ReasoningGraph.ids g)) (pre ++ e :: post) =
    if decide (node_id_of g (Edge.source e))
    then if decide (node_id_of g (Edge.target e))
         then ReasoningGraph.check_edges (list_to_set (ReasoningGraph.ids g)) post
         else Raise (target_not_found (Edge.target e))
    else Raise (source_not_found (Edge.source e)).
Proof.
  induction 1 as [|e' pre [Hs Ht] _ IH]; simpl.
  - destruct (decide (node_id_of g (Edge.source e))) as [Hs|Hs].
    + rewrite bool_decide_eq_true_2 by by apply node_id_of_ids. simpl.
      destruct (decide (node_id_of g (Edge.target e))) as [Ht|Ht].
      * by rewrite bool_decide_eq_true_2 by by apply node_id_of_ids.
      * by rewrite bool_decide_eq_false_2 by by rewrite <- node_id_of_ids.
    + by rewrite bool_decide_eq_false_2 by by rewrite <- node_id_of_ids.
  - apply node_id_of_ids in Hs, Ht.
    by rewrite !bool_decide_eq_true_2.
Qed.

Lemma check_edges_raise (g : ReasoningGraph.t) (es : list Edge.t) (r : value_exn) :
  ReasoningGraph.check_edges (list_to_set (ReasoningGraph.ids g)) es = Raise r →
  ∃ x, ¬ node_id_of g x ∧ dangling_reference_error x r.
Proof.
  induction es as [|e es IH]; simpl; [done|].
  destruct (bool_decide_reflect
              (Edge.source e ∈ (list_to_set (ReasoningGraph.ids g) : gset str)))
    as [Hs|Hs]; simpl.
  - destruct (bool_decide_reflect
                (Edge.target e ∈ (list_to_set (ReasoningGraph.ids g) : gset str)))
      as [Ht|Ht]; simpl; [done|].
    intros [= <-]. exists (Edge.target e).
    rewrite node_id_of_ids. split; [done|by right].
  - intros [= <-]. exists (Edge.source e).
    rewrite node_id_of_ids. split; [done|by left].
Qed.

Lemma dangling_not_duplicate (x : str) :
  ¬ dangling_reference_error x duplicate_id_error.
Proof. intros [H|H]; discriminate H. Qed.

(** Some edge has a missing end: there is a first such edge. *)
Lemma first_unresolved (g : ReasoningGraph.t) (es : list Edge.t) :
  Exists (λ e, ¬ resolved g e) es →
  ∃ pre e post, es = pre ++ e :: post ∧ Forall (resolved g) pre ∧ ¬ resolved g e.
Proof.
  induction es as [|e es IH]; intros H; [by apply Exists_nil in H|].
  destruct (decide (resolved g e)) as [He|He].
  - apply Exists_cons in H as [H|H]; [done|].
    destruct (IH H) as (pre & e' & post & -> & Hpre & He').
    exists (e :: pre), e', post. repeat split; [by constructor | done].
  - exists [], e, es. by repeat split.
Qed.

(** ** Properties *)

(** C1. A node sequence in which two entries have the same id makes
    [validate_graph] raise the duplicate-id error; a node sequence with
    pairwise distinct ids never makes it raise that error. *)
Theorem C1_duplicate_ids (g : ReasoningGraph.t) :
  (has_duplicate_ids (ReasoningGraph.nodes g) →
     ReasoningGraph.validate_graph g = Raise duplicate_id_error)
  ∧ (pairwise_distinct_ids (ReasoningGraph.nodes g) →
     ReasoningGraph.validate_graph g ≠ Raise duplicate_id_error).
Proof.
  split.
  - intros H. by apply validate_graph_duplicate, has_duplicate_ids_not_NoDup.
  - intros H%pairwise_distinct_ids_NoDup. rewrite validate_graph_NoDup by done.
    destruct (ReasoningGraph.check_edges _ _) as [|r] eqn:Hc; [done|].
    apply check_edges_raise in Hc as (x & _ & Hx).
    intros [= ->]. by apply (dangling_not_duplicate x).
Qed.

Lemma C1_duplicate_ids_witness :
  ReasoningGraph.validate_graph
    (ReasoningGraph.Build [node_c1; node_e1; node_c1] [edge_e1_c1])
    = Raise duplicate_id_error
  ∧ ReasoningGraph.validate_graph scenario_graph ≠ Raise duplicate_id_error.
Proof.
  split.
  - apply (proj1 (C1_duplicate_ids
                    (ReasoningGraph.Build [node_c1; node_e1; node_c1] [edge_e1_c1]))).
    exists 0, 2, node_c1, node_c1. repeat split; [lia | reflexivity..].
  - apply (proj2 (C1_duplicate_ids scenario_graph)).
    apply pairwise_distinct_ids_NoDup. by_compute.
Defined.

(** C2, as the specification words it: an edge with a missing end makes
    validation raise a dangling-reference error naming a missing id. It
    fails on a graph that also repeats a node id, where the duplicate-id
    error is raised before any edge is looked at. *)
Lemma C2_counterexample :
  ¬ (∀ (g : ReasoningGraph.t) (e : Edge.t),
       e ∈ ReasoningGraph.edges g → ¬ resolved g e →
       ∃ x r, ¬ node_id_of g x
              ∧ ReasoningGraph.validate_graph g = Raise r
              ∧ dangling_reference_error x r).
Proof.
  intros H.
  destruct (H (ReasoningGraph.Build [node_c1; node_c1] [edge_x_c1]) edge_x_c1)
    as (x & r & _ & Hr & Hx).
  - apply list_elem_of_here.
  - by_compute.
  - vm_compute in Hr. injection Hr as <-.
    destruct Hx as [Hx|Hx]; discriminate Hx.
Qed.

(** C2, amended. In a graph whose node ids are pairwise distinct, the first
    edge (in edge order) with a missing end makes [validate_graph] raise a
    dangling-reference error: it names the source of that edge when the
    source is missing, and its target otherwise; so some missing id is
    named whenever an edge has a missing end. When both ends of every edge
    are node ids, no dangling-reference error is raised. *)
Theorem C2_dangling_reference (g : ReasoningGraph.t) :
  (pairwise_distinct_ids (ReasoningGraph.nodes g) →
   ∀ pre e post,
     ReasoningGraph.edges g = pre ++ e :: post → Forall (resolved g) pre →
     (¬ node_id_of g (Edge.source e) →
        ReasoningGraph.validate_graph g = Raise (source_not_found (Edge.source e)))
     ∧ (node_id_of g (Edge.source e) → ¬ node_id_of g (Edge.target e) →
        ReasoningGraph.validate_graph g = Raise (target_not_found (Edge.target e))))
  ∧ (pairwise_distinct_ids (ReasoningGraph.nodes g) →
     Exists (λ e, ¬ resolved g e) (ReasoningGraph.edges g) →
     ∃ x r, ¬ node_id_of g x
            ∧ ReasoningGraph.validate_graph g = Raise r
            ∧ dangling_reference_error x r)
  ∧ (Forall (resolved g) (ReasoningGraph.edges g) →
     ∀ x r, ReasoningGraph.validate_graph g = Raise r →
            ¬ dangling_reference_error x r).
Proof.
  assert (∀ pre e post,
    NoDup (ReasoningGraph.ids g) →
    ReasoningGraph.edges g = pre ++ e :: post → Forall (resolved g) pre →
    (¬ node_id_of g (Edge.source e) →
       ReasoningGraph.validate_graph g = Raise (source_not_found (Edge.source e)))
    ∧ (node_id_of g (Edge.source e) → ¬ node_id_of g (Edge.target e) →
       ReasoningGraph.validate_graph g = Raise (target_not_found (Edge.target e))))
    as Hfirst.
  { intros pre e post Hnd Hes Hpre.
    rewrite validate_graph_NoDup, Hes, check_edges_first by done.
    split.
    - intros Hs. by rewrite decide_False.
    - intros Hs Ht. by rewrite decide_True, decide_False. }
  split; [|split].
  - intros Hnd%pairwise_distinct_ids_NoDup pre e post. by apply Hfirst.
  - intros Hnd%pairwise_distinct_ids_NoDup Hex.
    destruct (first_unresolved g _ Hex) as (pre & e & post & Hes & Hpre & He).
    destruct (Hfirst pre e post Hnd Hes Hpre) as [Hsrc Htgt].
    destruct (decide (node_id_of g (Edge.source e))) as [Hs|Hs].
    + assert (¬ node_id_of g (Edge.target e)) as Ht
        by (intros Ht; apply He; by split).
      exists (Edge.target e), (target_not_found (Edge.target e)).
      split; [done|]. split; [by apply Htgt | by right].
    + exists (Edge.source e), (source_not_found (Edge.source e)).
      split; [done|]. split; [by apply Hsrc | by left].
  - intros Hall x r Hr Hx.
    destruct (decide (NoDup (ReasoningGraph.ids g))) as [Hnd|Hnd].
    + rewrite validate_graph_NoDup, check_edges_resolved in Hr by done.
      discriminate Hr.
    + rewrite validate_graph_duplicate in Hr by done.
      injection Hr as <-. by apply (dangling_not_duplicate x).
Qed.

Lemma C2_dangling_reference_witness :
  ReasoningGraph.validate_graph
    (ReasoningGraph.Build [node_c1; node_e1] [edge_e1_c1; edge_x_c1; edge_c1_y])
    = Raise (source_not_found (lit "x"))
  ∧ ReasoningGraph.validate_graph
      (ReasoningGraph.Build [node_c1; node_e1] [edge_e1_c1; edge_c1_y; edge_x_c1])
      = Raise (target_not_found (lit "y"))
  ∧ (∃ x r, ¬ node_id_of
                (ReasoningGraph.Build [node_c1; node_e1] [edge_e1_c1; edge_c1_y]) x
            ∧ ReasoningGraph.validate_graph
                (ReasoningGraph.Build [node_c1; node_e1] [edge_e1_c1; edge_c1_y])
                = Raise r
            ∧ dangling_reference_error x r)
  ∧ (∀ x r, ReasoningGraph.validate_graph scenario_graph = Raise r →
            ¬ dangling_reference_error x r).
Proof.
  split; [|split; [|split]].
  - apply (proj1 (C2_dangling_reference
             (ReasoningGraph.Build [node_c1; node_e1]
                [edge_e1_c1; edge_x_c1; edge_c1_y]))
             ltac:(apply pairwise_distinct_ids_NoDup; by_compute)
             [edge_e1_c1] edge_x_c1 [edge_c1_y] eq_refl ltac:(by_compute)).
    by_compute.
  - apply (proj1 (C2_dangling_reference
             (ReasoningGraph.Build [node_c1; node_e1]
                [edge_e1_c1; edge_c1_y; edge_x_c1]))
             ltac:(apply pairwise_distinct_ids_NoDup; by_compute)
             [edge_e1_c1] edge_c1_y [edge_x_c1] eq_refl ltac:(by_compute)).
    + by_compute.
    + by_compute.
  - apply (proj1 (proj2 (C2_dangling_reference
             (ReasoningGraph.Build [node_c1; node_e1] [edge_e1_c1; edge_c1_y])))).
    + apply pairwise_distinct_ids_NoDup. by_compute.
    + by_compute.
  - apply (proj2 (proj2 (C2_dangling_reference scenario_graph))). by_compute.
Defined.

Lemma validate_graph_returns_self (g g' : ReasoningGraph.t) :
  ReasoningGraph.validate_graph g = Ok g' → g' = g.
Proof.
  unfold ReasoningGraph.validate_graph.
  destruct (negb _); [done|].
  destruct (ReasoningGraph.check_edges _ _); [|done].
  by intros [= <-].
Qed.

(** C6. The commented-out rules on edge kinds and endpoint kinds play no
    part: a graph with pairwise distinct node ids whose edges all have both
    ends among the node ids is accepted, whatever the kinds of its edges and
    nodes are. *)
Theorem C6_semantic_rules_not_enforced (g : ReasoningGraph.t) :
  pairwise_distinct_ids (ReasoningGraph.nodes g) →
  Forall (resolved g) (ReasoningGraph.edges g) →
  ReasoningGraph.validate_graph g = Ok g.
Proof.
  intros Hnd%pairwise_distinct_ids_NoDup Hall.
  by rewrite validate_graph_NoDup, check_edges_resolved.
Qed.

Lemma C6_semantic_rules_not_enforced_witness :
  ReasoningGraph.validate_graph mistyped_graph = Ok mistyped_graph.
Proof.
  apply (C6_semantic_rules_not_enforced mistyped_graph).
  - apply pairwise_distinct_ids_NoDup. by_compute.
  - by_compute.
Defined.

(** C9. When [validate_graph] succeeds it returns the graph it was given:
    the node sequence and the edge sequence are the input sequences,
    unchanged. *)
Theorem C9_validation_preserves_sequences (g g' : ReasoningGraph.t) :
  ReasoningGraph.validate_graph g = Ok g' →
  g' = g
  ∧ ReasoningGraph.nodes g' = ReasoningGraph.nodes g
  ∧ ReasoningGraph.edges g' = ReasoningGraph.edges g.
Proof. by intros ->%validate_graph_returns_self. Qed.

Lemma C9_validation_preserves_sequences_witness :
  ReasoningGraph.validate_graph mistyped_graph = Ok mistyped_graph
  ∧ ReasoningGraph.nodes mistyped_graph = [node_c1; node_c2; node_e1]
  ∧ ReasoningGraph.edges mistyped_graph
    = [edge_c2_c1; Edge.Build (lit "e1") (lit "c1") IMPLIES;
       Edge.Build (lit "c1") (lit "e1") DEPENDS_ON].
Proof.
  assert (ReasoningGraph.validate_graph mistyped_graph = Ok mistyped_graph) as H
    by (vm_compute; reflexivity).
  split; [exact H|].
  exact (proj2 (C9_validation_preserves_sequences mistyped_graph mistyped_graph H)).
Defined.

(** ** Floats *)

Lemma SFcompare_antisym (x y : spec_float) :
  SFcompare y x = CompOpp <$> SFcompare x y.
Proof.
  destruct x as [[]|[]| |[] m1 e1], y as [[]|[]| |[] m2 e2]; try reflexivity;
    simpl; rewrite (Z.compare_antisym e1 e2);
    destruct (e1 ?= e2)%Z; simpl; try reflexivity; f_equal.
  - rewrite CompOpp_involutive. exact (Pos.compare_cont_antisym m2 m1 Eq).
  - symmetry. exact (Pos.compare_cont_antisym m1 m2 Eq).
Qed.

Lemma float_lt_not_le (x y : float) : float_lt x y = true → float_le y x = false.
Proof.
  unfold float_lt, float_le, SFltb, SFleb. rewrite (SFcompare_antisym (sf x)).
  by destruct (SFcompare (sf x) (sf y)) as [[]|].
Qed.

Lemma float_lt_zero_le_one (x : float) :
  float_lt x f_zero = true → float_le x f_one = true.
Proof.
  destruct x as [[[]|[]| |[] m e] Hx]; unfold float_lt, float_le; simpl;
    intros H; try discriminate H; reflexivity.
Qed.

Lemma float_eq_zero_in_range (x : float) :
  float_eq x f_zero = true → confidence_in_range (Some x).
Proof.
  destruct x as [[[]|[]| |[] m e] Hx];
    unfold float_eq, confidence_in_range, float_le; simpl;
    intros H; try discriminate H; split; reflexivity.
Qed.

Lemma float_eq_one_in_range (x : float) :
  float_eq x f_one = true → confidence_in_range (Some x).
Proof.
  destruct x as [[[]|[]| |[] m e] Hx];
    unfold float_eq, SFeqb, confidence_in_range, float_le, SFleb;
    cbn [sf f_one f_zero SFcompare]; intros H; try discriminate H.
  destruct (e ?= -52)%Z eqn:He; try discriminate H.
  destruct (Pos.compare_cont Eq m 4503599627370496) eqn:Hm; try discriminate H.
  apply Z.compare_eq in He as ->. apply Pos.compare_eq in Hm as ->.
  split; reflexivity.
Qed.

(** ** Node construction *)

Lemma validate_id_whitespace (i : str) :
  Forall whitespace i → Node.validate_id i = Invalid [empty_id_error].
Proof.
  intros H%strip_whitespace. unfold Node.validate_id, Node.id_not_empty.
  by rewrite H.
Qed.

Lemma validate_id_strip (i : str) :
  ¬ Forall whitespace i → Node.validate_id i = Valid (strip i).
Proof.
  rewrite strip_whitespace. unfold Node.validate_id, Node.id_not_empty.
  by destruct (strip i).
Qed.

Lemma validate_text_nonempty (x : str) : x ≠ [] → Node.validate_text x = Valid x.
Proof. by destruct x. Qed.

Lemma validate_confidence_in_range (c : option float) :
  confidence_in_range c → Node.validate_confidence c = Valid c.
Proof.
  destruct c as [v|]; [|done]. intros [H0 H1].
  unfold Node.validate_confidence. by rewrite H0, H1.
Qed.

Lemma validate_confidence_below (v : float) :
  float_lt v f_zero = true →
  Node.validate_confidence (Some v) = Invalid [confidence_below_error].
Proof.
  intros H. unfold Node.validate_confidence.
  by rewrite (float_lt_zero_le_one v H), (float_lt_not_le v f_zero H).
Qed.

Lemma validate_confidence_above (v : float) :
  float_lt f_one v = true →
  Node.validate_confidence (Some v) = Invalid [confidence_above_error].
Proof.
  intros H. unfold Node.validate_confidence.
  by rewrite (float_lt_not_le f_one v H).
Qed.

(** A node is constructed exactly when its three constrained fields are
    accepted; its id is then the stripped one. *)
Lemma node_new_ok (i : str) (ty : NodeType) (x : str) (s : option str)
    (c : option float) :
  ¬ Forall whitespace i → x ≠ [] → confidence_in_range c →
  Node.new i ty x s c = Ok (Node.Build (strip i) ty x s c).
Proof.
  intros Hi Hx Hc. unfold Node.new, Node.model_validate, Node.validate. simpl.
  by rewrite validate_id_strip, validate_text_nonempty,
    validate_confidence_in_range.
Qed.

(** Every error of a field is among the errors construction raises. *)
Lemma node_new_errors (i : str) (ty : NodeType) (x : str) (s : option str)
    (c : option float) (e : ErrorDetails) :
  e ∈ errors_of (Node.validate_id i) ++ errors_of (Node.validate_text x)
        ++ errors_of (Node.validate_confidence c) →
  ∃ errs, Node.new i ty x s c = Raise (ValidationError errs) ∧ e ∈ errs.
Proof.
  unfold Node.new, Node.model_validate, Node.validate. simpl.
  destruct (Node.validate_id i), (Node.validate_text x),
    (Node.validate_confidence c); simpl; intros He;
    try (by apply elem_of_nil in He); eexists; split; try reflexivity; done.
Qed.

(** C4. Constructing a node fails when its id is empty or made of
    whitespace only, and fails when its text is empty; with an id that has
    a character other than whitespace, a text that is not empty and a
    confidence that is absent or within [0, 1], it succeeds (and stores the
    stripped id). *)
Theorem C4_node_nonempty (i : str) (ty : NodeType) (x : str) (s : option str)
    (c : option float) :
  (Forall whitespace i →
     ∃ errs, Node.new i ty x s c = Raise (ValidationError errs)
             ∧ empty_id_error ∈ errs)
  ∧ (x = [] →
     ∃ errs, Node.new i ty x s c = Raise (ValidationError errs)
             ∧ empty_text_error ∈ errs)
  ∧ (¬ Forall whitespace i → x ≠ [] → confidence_in_range c →
     Node.new i ty x s c = Ok (Node.Build (strip i) ty x s c)).
Proof.
  split; [|split].
  - intros Hi. apply node_new_errors.
    rewrite validate_id_whitespace by done. apply list_elem_of_here.
  - intros ->. apply node_new_errors.
    apply elem_of_app. right. apply list_elem_of_here.
  - apply node_new_ok.
Qed.

Lemma C4_node_nonempty_witness :
  (∃ errs, Node.new (lit "") CLAIM (lit "a claim") None None
             = Raise (ValidationError errs) ∧ empty_id_error ∈ errs)
  ∧ (∃ errs, Node.new (lit "   ") CLAIM (lit "a claim") None None
               = Raise (ValidationError errs) ∧ empty_id_error ∈ errs)
  ∧ (∃ errs, Node.new (lit "c1") CLAIM (lit "") None None
               = Raise (ValidationError errs) ∧ empty_text_error ∈ errs)
  ∧ Node.new (lit " c1 ") CLAIM (lit "a claim") None (Some f_0_5)
      = Ok (Node.Build (lit "c1") CLAIM (lit "a claim") None (Some f_0_5)).
Proof.
  split; [|split; [|split]].
  - apply (proj1 (C4_node_nonempty (lit "") CLAIM (lit "a claim") None None)).
    by_compute.
  - apply (proj1 (C4_node_nonempty (lit "   ") CLAIM (lit "a claim") None None)).
    by_compute.
  - apply (proj1 (proj2 (C4_node_nonempty (lit "c1") CLAIM (lit "") None None))).
    reflexivity.
  - apply (proj2 (proj2 (C4_node_nonempty (lit " c1 ") CLAIM (lit "a claim")
                           None (Some f_0_5)))).
    + by_compute.
    + discriminate.
    + split; reflexivity.
Defined.

(** C5. Constructing a node with a confidence below 0 or above 1 fails, on
    the bound that is broken; with an id and a text that are accepted, a
    confidence within the closed interval [0, 1] (so also one equal to 0.0
    or to 1.0) and an absent confidence are accepted and stored as given. *)
Theorem C5_confidence_bounds (i : str) (ty : NodeType) (x : str) (s : option str) :
  (∀ v, float_lt v f_zero = true →
     ∃ errs, Node.new i ty x s (Some v) = Raise (ValidationError errs)
             ∧ confidence_below_error ∈ errs)
  ∧ (∀ v, float_lt f_one v = true →
     ∃ errs, Node.new i ty x s (Some v) = Raise (ValidationError errs)
             ∧ confidence_above_error ∈ errs)
  ∧ (¬ Forall whitespace i → x ≠ [] →
     (∀ v, float_le f_zero v = true → float_le v f_one = true →
        Node.new i ty x s (Some v) = Ok (Node.Build (strip i) ty x s (Some v)))
     ∧ (∀ v, float_eq v f_zero = true ∨ float_eq v f_one = true →
        Node.new i ty x s (Some v) = Ok (Node.Build (strip i) ty x s (Some v)))
     ∧ Node.new i ty x s None = Ok (Node.Build (strip i) ty x s None)).
Proof.
  split; [|split].
  - intros v Hv. apply node_new_errors.
    rewrite validate_confidence_below by done.
    rewrite !elem_of_app. right. right. apply list_elem_of_here.
  - intros v Hv. apply node_new_errors.
    rewrite validate_confidence_above by done.
    rewrite !elem_of_app. right. right. apply list_elem_of_here.
  - intros Hi Hx. split; [|split].
    + intros v H0 H1. by apply node_new_ok.
    + intros v [Hv|Hv]; apply node_new_ok; try done.
      * by apply float_eq_zero_in_range.
      * by apply float_eq_one_in_range.
    + by apply node_new_ok.
Qed.

Lemma C5_confidence_bounds_witness :
  (∃ errs, Node.new (lit "c1") CLAIM (lit "a claim") None (Some f_neg_0_1)
             = Raise (ValidationError errs) ∧ confidence_below_error ∈ errs)
  ∧ (∃ errs, Node.new (lit "c1") CLAIM (lit "a claim") None (Some f_1_5)
               = Raise (ValidationError errs) ∧ confidence_above_error ∈ errs)
  ∧ Node.new (lit "c1") CLAIM (lit "a claim") None (Some f_0_5)
      = Ok (Node.Build (lit "c1") CLAIM (lit "a claim") None (Some f_0_5))
  ∧ Node.new (lit "c1") CLAIM (lit "a claim") None (Some f_zero)
      = Ok (Node.Build (lit "c1") CLAIM (lit "a claim") None (Some f_zero))
  ∧ Node.new (lit "c1") CLAIM (lit "a claim") None (Some f_one)
      = Ok (Node.Build (lit "c1") CLAIM (lit "a claim") None (Some f_one))
  ∧ Node.new (lit "c1") CLAIM (lit "a claim") None None
      = Ok (Node.Build (lit "c1") CLAIM (lit "a claim") None None)
  ∧ (∃ errs, Node.new (lit "c1") CLAIM (lit "a claim") None (Some f_inf)
               = Raise (ValidationError errs) ∧ confidence_above_error ∈ errs)
  ∧ Node.new (lit "c1") CLAIM (lit "a claim") None (Some f_neg_zero)
      = Ok (Node.Build (lit "c1") CLAIM (lit "a claim") None (Some f_neg_zero)).
Proof.
  pose proof (C5_confidence_bounds (lit "c1") CLAIM (lit "a claim") None)
    as (Hbelow & Habove & Hin).
  destruct Hin as (Hrange & Hends & Hnone); [by_compute | discriminate |].
  split; [|split; [|split; [|split; [|split; [|split; [|split]]]]]].
  - apply (Hbelow f_neg_0_1). reflexivity.
  - apply (Habove f_1_5). reflexivity.
  - apply (Hrange f_0_5); reflexivity.
  - apply (Hends f_zero). left. reflexivity.
  - apply (Hends f_one). right. reflexivity.
  - apply Hnone.
  - apply (Habove f_inf). reflexivity.
  - apply (Hends f_neg_zero). left. reflexivity.
Defined.

(** ** Construction from candidate data *)

Lemma node_validate_valid (n n' : Node.t) :
  Node.validate n = Valid n' → n' = stored n.
Proof.
  unfold Node.validate, stored.
  destruct (Node.validate_id (Node.id n)) as [i|] eqn:Hi;
    destruct (Node.validate_text (Node.text n)) as [x|] eqn:Hx;
    destruct (Node.validate_confidence (Node.confidence n)) as [c|] eqn:Hc;
    try done.
  intros [= <-]. f_equal.
  - unfold Node.validate_id, Node.id_not_empty in Hi.
    destruct (strip (Node.id n)); simpl in Hi; congruence.
  - unfold Node.validate_text in Hx. destruct (_ <? _); congruence.
  - unfold Node.validate_confidence in Hc.
    destruct (Node.confidence n) as [v|]; [|congruence].
    destruct (negb _); [done|]. destruct (negb _); congruence.
Qed.

Lemma validate_nodes_valid (k : nat) (l l' : list Node.t) :
  ReasoningGraph.validate_nodes k l = Valid l' → l' = stored <$> l.
Proof.
  revert k l'. induction l as [|n l IH]; intros k l'; simpl.
  - by intros [= <-].
  - destruct (Node.validate n) as [n1|] eqn:Hn; simpl;
      destruct (ReasoningGraph.validate_nodes (S k) l) as [l1|] eqn:Hl;
      try done.
    intros [= <-]. apply node_validate_valid in Hn as ->.
    by rewrite (IH _ _ Hl).
Qed.

Lemma validate_nodes_all (k : nat) (l : list Node.t) :
  Forall (λ n, ∃ n', Node.model_validate n = Ok n') l →
  ReasoningGraph.validate_nodes k l = Valid (stored <$> l).
Proof.
  intros H. revert k. induction H as [|n l [n' Hn] _ IH]; intros k; simpl; [done|].
  unfold Node.model_validate in Hn.
  destruct (Node.validate n) as [n1|] eqn:Hn1; [|done]. simpl.
  apply node_validate_valid in Hn1 as ->. by rewrite IH.
Qed.

Lemma validate_edges_valid (k : nat) (l : list Edge.t) :
  ReasoningGraph.validate_edges k l = Valid l.
Proof. revert k. induction l as [|e l IH]; intros k; simpl; [done|]. by rewrite IH. Qed.

(** Construction of a graph from candidate data: the nodes are stored with
    stripped ids, and the graph validator runs on the stored nodes only if
    every node was accepted. *)
Lemma graph_validate_cases (g : ReasoningGraph.t) :
  (ReasoningGraph.validate_nodes 0 (ReasoningGraph.nodes g)
     = Valid (stored <$> ReasoningGraph.nodes g)
   ∧ ReasoningGraph.validate g =
       run_validator (ReasoningGraph.validate_graph
         (ReasoningGraph.Build (stored <$> ReasoningGraph.nodes g)
            (ReasoningGraph.edges g))))
  ∨ (∃ errs, ReasoningGraph.validate g = Invalid errs).
Proof.
  unfold ReasoningGraph.validate. rewrite validate_edges_valid.
  destruct (ReasoningGraph.validate_nodes 0 (ReasoningGraph.nodes g))
    as [ns|errs] eqn:Hns; simpl.
  - left. by apply validate_nodes_valid in Hns as ->.
  - right. by eexists.
Qed.

Lemma graph_model_validate_ok (g g' : ReasoningGraph.t) :
  ReasoningGraph.model_validate g = Ok g' →
  g' = ReasoningGraph.Build (stored <$> ReasoningGraph.nodes g) (ReasoningGraph.edges g).
Proof.
  unfold ReasoningGraph.model_validate.
  destruct (graph_validate_cases g) as [[_ ->]|[errs ->]]; [|done].
  destruct (ReasoningGraph.validate_graph _) as [g1|[msg]] eqn:Hg; [|done].
  simpl. intros [= <-]. by apply validate_graph_returns_self in Hg.
Qed.

(** C10. A constructed node stores the id it was given with the leading and
    trailing whitespace removed. So when two candidate nodes of a graph
    have ids that differ in surrounding whitespace only, construction of
    the graph fails, and, when every node is accepted on its own, it fails
    with the duplicate-id error. *)
Theorem C10_id_normalized :
  (∀ i ty x s c n,
     Node.new i ty x s c = Ok n → Node.id n = strip i ∧ trimmed i (Node.id n))
  ∧ (∀ nodes edges i j a b,
       i ≠ j → nodes !! i = Some a → nodes !! j = Some b →
       (∃ core, trimmed (Node.id a) core ∧ trimmed (Node.id b) core) →
       (∃ e, ReasoningGraph.new nodes edges = Raise e)
       ∧ (Forall (λ n, ∃ n', Node.model_validate n = Ok n') nodes →
          ReasoningGraph.new nodes edges = Raise duplicate_id_errors)).
Proof.
  split.
  - intros i ty x s c n. unfold Node.new, Node.model_validate.
    destruct (Node.validate _) as [n'|] eqn:Hn; [|done].
    intros [= <-]. apply node_validate_valid in Hn as ->. simpl.
    split; [done|]. by apply strip_trimmed.
  - intros nodes edges i j a b Hij Ha Hb (core & Hca%strip_trimmed & Hcb%strip_trimmed).
    assert (ReasoningGraph.validate_graph
              (ReasoningGraph.Build (stored <$> nodes) edges)
            = Raise duplicate_id_error) as Hdup.
    { apply validate_graph_duplicate, has_duplicate_ids_not_NoDup.
      exists i, j, (stored a), (stored b). simpl.
      rewrite !list_lookup_fmap, Ha, Hb. repeat split; try done.
      simpl. congruence. }
    unfold ReasoningGraph.new, ReasoningGraph.model_validate.
    split.
    + destruct (graph_validate_cases (ReasoningGraph.Build nodes edges))
        as [[_ ->]|[errs ->]]; simpl; [|by eexists].
      rewrite Hdup. by eexists.
    + intros Hall. unfold ReasoningGraph.validate. simpl.
      rewrite (validate_nodes_all 0 nodes Hall), validate_edges_valid. simpl.
      by rewrite Hdup.
Qed.

Lemma C10_id_normalized_witness :
  (Node.id (Node.Build (lit "c1") CLAIM (lit "a claim") None None) = strip (lit " c1 ")
   ∧ trimmed (lit " c1 ")
       (Node.id (Node.Build (lit "c1") CLAIM (lit "a claim") None None)))
  ∧ ReasoningGraph.new
      [node_c1; node_e1; Node.Build (lit " c1 ") CLAIM (lit "again") None None]
      [edge_e1_c1]
    = Raise duplicate_id_errors.
Proof.
  split.
  - apply (proj1 C10_id_normalized (lit " c1 ") CLAIM (lit "a claim") None None).
    reflexivity.
  - apply (proj2 C10_id_normalized
             [node_c1; node_e1; Node.Build (lit " c1 ") CLAIM (lit "again") None None]
             [edge_e1_c1] 0 2 node_c1
             (Node.Build (lit " c1 ") CLAIM (lit "again") None None)).
    + lia.
    + reflexivity.
    + reflexivity.
    + exists (lit "c1"). split; apply strip_trimmed; reflexivity.
    + repeat constructor; eexists; reflexivity.
Defined.

(** C3, as the specification words it: an [Output] whose [text] is empty is
    rejected. The field has no minimum length, and the scenario graph with
    the empty text is accepted. *)
Lemma C3_counterexample :
  ReasoningGraph.model_validate scenario_graph = Ok scenario_graph
  ∧ Output.new (lit "") scenario_graph = Ok (Output.Build (lit "") scenario_graph)
  ∧ ¬ (∃ e, Output.new (lit "") scenario_graph = Raise e).
Proof.
  assert (Output.new (lit "") scenario_graph
          = Ok (Output.Build (lit "") scenario_graph)) as H
    by (vm_compute; reflexivity).
  split; [vm_compute; reflexivity|]. split; [exact H|].
  intros [e He]. rewrite H in He. discriminate He.
Qed.

(** C3, amended. Construction of an [Output] puts no constraint on [text]:
    for every text, the empty one included, it succeeds whenever its graph
    is accepted, and when it fails its graph was rejected. *)
Theorem C3_output_text_unconstrained (text : str) (g : ReasoningGraph.t) :
  (∀ g', ReasoningGraph.model_validate g = Ok g' →
         Output.new text g = Ok (Output.Build text g'))
  ∧ (∀ e, Output.new text g = Raise e →
          ∃ e', ReasoningGraph.model_validate g = Raise e').
Proof.
  unfold Output.new, Output.model_validate, Output.validate,
    ReasoningGraph.model_validate. simpl.
  destruct (ReasoningGraph.validate g) as [g1|errs]; simpl.
  - split; [by intros g' [= <-] | done].
  - split; [done | by eexists].
Qed.

Lemma C3_output_text_unconstrained_witness :
  Output.new (lit "") scenario_graph = Ok (Output.Build (lit "") scenario_graph)
  ∧ Output.new (lit "an off-by-one bug") scenario_graph
    = Ok (Output.Build (lit "an off-by-one bug") scenario_graph)
  ∧ ∃ e', ReasoningGraph.model_validate
            (ReasoningGraph.Build [node_c1; node_c1] []) = Raise e'.
Proof.
  split; [|split].
  - apply (proj1 (C3_output_text_unconstrained (lit "") scenario_graph)).
    vm_compute. reflexivity.
  - apply (proj1 (C3_output_text_unconstrained (lit "an off-by-one bug")
                    scenario_graph)).
    vm_compute. reflexivity.
  - apply (proj2 (C3_output_text_unconstrained (lit "why")
                    (ReasoningGraph.Build [node_c1; node_c1] []))
             (ValidationError
                [ {| loc := [Key "graph"];
                     err := value_error (lit "Duplicate node ids are not allowed") |} ])).
    vm_compute. reflexivity.
Defined.

(** ** The export *)

Section ExportProperties.

Variable py_format : pyval → str.
Hypothesis py_format_str : ∀ s, py_format (PyStr s) = s.

Lemma edge_id_dump (e : Edge.t) :
  edge_id py_format (Edge_model_dump e) = Ok (edge_element_id e).
Proof.
  unfold edge_id, edge_element_id.
  change (getitem (Edge_model_dump e) (lit "type"))
    with (Ok (E:=lookup_exn) (PyStr (EdgeType_value (Edge.type e)))).
  change (getitem (Edge_model_dump e) (lit "source"))
    with (Ok (E:=lookup_exn) (PyStr (Edge.source e))).
  change (getitem (Edge_model_dump e) (lit "target"))
    with (Ok (E:=lookup_exn) (PyStr (Edge.target e))).
  simpl. by rewrite !py_format_str.
Qed.

Lemma edge_element_dump (e : Edge.t) :
  edge_element py_format (Edge_model_dump e) = Ok (edge_record e).
Proof. unfold edge_element. by rewrite edge_id_dump. Qed.

Lemma node_element_dump (n : Node.t) :
  node_element (Node_model_dump n) = Ok (node_record n).
Proof. by destruct n as [i ty x [s|] [c|]]. Qed.

Lemma mapM_node_elements (l : list Node.t) :
  mapM node_element (List.map Node_model_dump l) = Ok (node_record <$> l).
Proof.
  induction l as [|n l IH]; [done|].
  cbn [List.map mapM]. rewrite node_element_dump, IH. done.
Qed.

Lemma mapM_edge_elements (l : list Edge.t) :
  mapM (edge_element py_format) (List.map Edge_model_dump l)
  = Ok (edge_record <$> l).
Proof.
  induction l as [|e l IH]; [done|].
  cbn [List.map mapM]. rewrite edge_element_dump, IH. done.
Qed.

Lemma export_document (out : Output.t) :
  export py_format out = Ok (document out).
Proof.
  unfold export, cyto, document.
  change (getitem (Output_model_dump out) (lit "text"))
    with (Ok (E:=lookup_exn) (PyStr (Output.text out))).
  change (getitem (Output_model_dump out) (lit "graph"))
    with (Ok (E:=lookup_exn) (ReasoningGraph_model_dump (Output.graph out))).
  cbn [mbind result_bind].
  change (getitem (ReasoningGraph_model_dump (Output.graph out)) (lit "nodes"))
    with (Ok (E:=lookup_exn)
            (PyList (List.map Node_model_dump
                       (ReasoningGraph.nodes (Output.graph out))))).
  change (getitem (ReasoningGraph_model_dump (Output.graph out)) (lit "edges"))
    with (Ok (E:=lookup_exn)
            (PyList (List.map Edge_model_dump
                       (ReasoningGraph.edges (Output.graph out))))).
  cbn [mbind result_bind py_iter].
  rewrite mapM_node_elements. cbn [mbind result_bind].
  rewrite mapM_edge_elements. done.
Qed.

End ExportProperties.

(** C7. The element of an exported edge has as id the kind of the edge, a
    colon, the source id, ["->"] and the target id; the edge from ["e1"] to
    ["c1"] of kind [supports] gets the id ["supports:e1->c1"]. *)
Theorem C7_edge_id_synthesis (py_format : pyval → str) :
  (∀ s, py_format (PyStr s) = s) →
  (∀ e : Edge.t,
     edge_id py_format (Edge_model_dump e)
       = Ok (EdgeType_value (Edge.type e) ++ lit ":" ++ Edge.source e
               ++ lit "->" ++ Edge.target e)
     ∧ edge_element py_format (Edge_model_dump e) = Ok (edge_record e))
  ∧ edge_id py_format (Edge_model_dump (Edge.Build (lit "e1") (lit "c1") SUPPORTS))
    = Ok (lit "supports:e1->c1").
Proof.
  intros Hfmt. split.
  - intros e. split; [by apply edge_id_dump | by apply edge_element_dump].
  - by rewrite edge_id_dump.
Qed.

Lemma C7_edge_id_synthesis_witness :
  edge_id format_of_str (Edge_model_dump edge_e1_c1) = Ok (lit "supports:e1->c1")
  ∧ edge_id format_of_str
      (Edge_model_dump (Edge.Build (lit "c 1") (lit "") DEPENDS_ON))
    = Ok (lit "depends-on:c 1->").
Proof.
  pose proof (C7_edge_id_synthesis format_of_str (λ s, eq_refl)) as [Hall Hex].
  split.
  - exact Hex.
  - exact (proj1 (Hall (Edge.Build (lit "c 1") (lit "") DEPENDS_ON))).
Defined.

(** C8. For an [Output] that construction returned, the export document is
    [document]: its text, one element per node in the order of the node
    sequence, holding the id, the text as [label], the kind as [type], and
    [source] and [confidence] (present with [None] when unset), and one
    element per edge in the order of the edge sequence; the sequences are
    those of the candidate data, the ids stripped, with nothing merged,
    dropped or sorted. *)
Theorem C8_export_elements (py_format : pyval → str) (text : str)
    (g : ReasoningGraph.t) (out : Output.t) :
  (∀ s, py_format (PyStr s) = s) →
  Output.new text g = Ok out →
  export py_format out = Ok (document out)
  ∧ Output.text out = text
  ∧ ReasoningGraph.nodes (Output.graph out) = stored <$> ReasoningGraph.nodes g
  ∧ ReasoningGraph.edges (Output.graph out) = ReasoningGraph.edges g
  ∧ (∀ n, Node.source n = None →
          dict_lookup (lit "source") (node_data n) = Some PyNone)
  ∧ (∀ n, Node.confidence n = None →
          dict_lookup (lit "confidence") (node_data n) = Some PyNone).
Proof.
  intros Hfmt Hout. split; [by apply export_document|].
  unfold Output.new, Output.model_validate, Output.validate in Hout.
  simpl in Hout.
  destruct (ReasoningGraph.validate g) as [g1|errs] eqn:Hg; [|done].
  simpl in Hout. injection Hout as <-. simpl.
  assert (ReasoningGraph.model_validate g = Ok g1) as Hg1
    by (unfold ReasoningGraph.model_validate; by rewrite Hg).
  apply graph_model_validate_ok in Hg1 as ->. simpl.
  repeat split; try done.
  - intros n Hn. unfold node_data. by rewrite Hn.
  - intros n Hn. unfold node_data. by rewrite Hn.
Qed.


Lemma C8_export_elements_witness :
  export format_of_str
    (Output.Build (lit "off-by-one")
       (ReasoningGraph.Build [node_c1; node_e1; node_c2] [edge_e1_c1; edge_c2_c1; edge_e1_c1]))
  = Ok (PyDict
      [ (lit "text", PyStr (lit "off-by-one"));
        (lit "elements",
          PyDict
            [ (lit "nodes",
                PyList [node_record node_c1; node_record node_e1; node_record node_c2]);
              (lit "edges",
                PyList [edge_record edge_e1_c1; edge_record edge_c2_c1;
                        edge_record edge_e1_c1]) ]) ]).
Proof.
  exact (proj1 (C8_export_elements format_of_str (lit "off-by-one")
    (ReasoningGraph.Build
       [Node.Build (lit " c1") CLAIM (lit "off-by-one bug") None None;
        node_e1; node_c2]
       [edge_e1_c1; edge_c2_c1; edge_e1_c1])
    (Output.Build (lit "off-by-one")
       (ReasoningGraph.Build [node_c1; node_e1; node_c2]
          [edge_e1_c1; edge_c2_c1; edge_e1_c1]))
    (λ s, eq_refl) ltac:(vm_compute; reflexivity))).
Defined.

(** ** Further properties of node construction *)

Lemma validate_id_valid (i i' : str) :
  Node.validate_id i = Valid i' → i' = strip i ∧ strip i ≠ [].
Proof.
  unfold Node.validate_id, Node.id_not_empty.
  destruct (strip i) eqn:Hs; simpl; [done|]. by intros [= <-].
Qed.

Lemma validate_text_valid (x x' : str) :
  Node.validate_text x = Valid x' → x' = x ∧ x ≠ [].
Proof. destruct x; [done|]. by intros [= <-]. Qed.

Lemma validate_confidence_valid (c c' : option float) :
  Node.validate_confidence c = Valid c' →
  c' = c ∧ ∀ v, c = Some v → float_lt v f_zero = false ∧ float_lt f_one v = false.
Proof.
  unfold Node.validate_confidence. destruct c as [v|]; [|by intros [= <-]].
  destruct (float_le v f_one) eqn:H1; [|done]. simpl.
  destruct (float_le f_zero v) eqn:H0; [|done]. simpl.
  intros [= <-]. split; [done|]. intros ? [= <-]. split.
  - destruct (float_lt v f_zero) eqn:Hlt; [|done].
    apply float_lt_not_le in Hlt. congruence.
  - destruct (float_lt f_one v) eqn:Hlt; [|done].
    apply float_lt_not_le in Hlt. congruence.
Qed.

Lemma strip_well_formed (i : str) :
  (∀ c, head (strip i) = Some c → ¬ whitespace c)
  ∧ (∀ c, last (strip i) = Some c → ¬ whitespace c).
Proof.
  destruct (proj2 (strip_trimmed i (strip i)) eq_refl)
    as (l & t & _ & _ & _ & Hh & Hl).
  by split.
Qed.

Lemma node_validate_well_formed (n n' : Node.t) :
  Node.validate n = Valid n' → n' = stored n ∧ well_formed_node n'.
Proof.
  intros H. pose proof (node_validate_valid n n' H) as ->.
  split; [done|]. unfold Node.validate in H.
  destruct (Node.validate_id (Node.id n)) as [i|] eqn:Hi;
    destruct (Node.validate_text (Node.text n)) as [x|] eqn:Hx;
    destruct (Node.validate_confidence (Node.confidence n)) as [c|] eqn:Hc;
    try done.
  apply validate_id_valid in Hi as [_ Hi].
  apply validate_text_valid in Hx as [_ Hx].
  apply validate_confidence_valid in Hc as [_ Hc].
  destruct (strip_well_formed (Node.id n)) as [Hh Hl].
  unfold well_formed_node, stored. simpl.
  exact (conj Hi (conj Hh (conj Hl (conj Hx Hc)))).
Qed.

(** X1. A node that construction returns is its candidate with the id
    stripped, and is well formed: its id is not empty and has no whitespace
    at either end, its text is not empty, and its confidence, when present,
    is neither below 0 nor above 1. *)
Theorem X1_constructed_node_well_formed (i : str) (ty : NodeType) (x : str)
    (s : option str) (c : option float) (n : Node.t) :
  Node.new i ty x s c = Ok n →
  n = Node.Build (strip i) ty x s c ∧ well_formed_node n.
Proof.
  unfold Node.new, Node.model_validate.
  destruct (Node.validate _) as [n'|] eqn:Hn; [|done].
  intros [= <-]. by apply node_validate_well_formed in Hn.
Qed.

Lemma X1_constructed_node_well_formed_witness :
  Node.Build (lit "c 1") EVIDENCE (lit " ") (Some (lit "")) (Some f_one)
    = Node.Build (strip (lit "  c 1 ")) EVIDENCE (lit " ") (Some (lit "")) (Some f_one)
  ∧ well_formed_node
      (Node.Build (lit "c 1") EVIDENCE (lit " ") (Some (lit "")) (Some f_one)).
Proof.
  apply (X1_constructed_node_well_formed (lit "  c 1 ") EVIDENCE (lit " ")
           (Some (lit "")) (Some f_one)).
  reflexivity.
Defined.

Lemma validate_id_invalid (i : str) (errs : list ErrorDetails) :
  Node.validate_id i = Invalid errs → errs = [empty_id_error].
Proof.
  unfold Node.validate_id, Node.id_not_empty.
  destruct (strip i); simpl; [|done]. by intros [= <-].
Qed.

Lemma validate_text_invalid (x : str) (errs : list ErrorDetails) :
  Node.validate_text x = Invalid errs → errs = [empty_text_error].
Proof. destruct x; [|done]. by intros [= <-]. Qed.

Lemma validate_confidence_invalid (c : option float) (errs : list ErrorDetails) :
  Node.validate_confidence c = Invalid errs →
  errs = [confidence_above_error] ∨ errs = [confidence_below_error].
Proof.
  unfold Node.validate_confidence. destruct c as [v|]; [|done].
  destruct (negb (float_le v f_one)); [intros [= <-]; by left|].
  destruct (negb (float_le f_zero v)); [intros [= <-]; by right | done].
Qed.

(** The errors of each field: none, or the one error of the field. *)
Lemma validate_id_errors (i : str) :
  errors_of (Node.validate_id i) = [] ∨ errors_of (Node.validate_id i) = [empty_id_error].
Proof.
  destruct (Node.validate_id i) eqn:H; [by left|].
  right. by apply validate_id_invalid in H.
Qed.

Lemma validate_text_errors (x : str) :
  errors_of (Node.validate_text x) = []
  ∨ errors_of (Node.validate_text x) = [empty_text_error].
Proof.
  destruct (Node.validate_text x) eqn:H; [by left|].
  right. by apply validate_text_invalid in H.
Qed.

Lemma validate_confidence_errors (c : option float) :
  errors_of (Node.validate_confidence c) = []
  ∨ errors_of (Node.validate_confidence c) = [confidence_above_error]
  ∨ errors_of (Node.validate_confidence c) = [confidence_below_error].
Proof.
  destruct (Node.validate_confidence c) eqn:H; [by left|].
  right. by apply validate_confidence_invalid in H.
Qed.

(** A rejected node comes with the errors of its fields, in the order of
    the fields, and there is at least one. *)
Lemma node_validate_invalid (n : Node.t) (errs : list ErrorDetails) :
  Node.validate n = Invalid errs →
  errs = errors_of (Node.validate_id (Node.id n))
           ++ errors_of (Node.validate_text (Node.text n))
           ++ errors_of (Node.validate_confidence (Node.confidence n))
  ∧ errs ≠ [].
Proof.
  unfold Node.validate.
  destruct (Node.validate_id (Node.id n)) as [i|ei] eqn:Hi;
    destruct (Node.validate_text (Node.text n)) as [x|ex] eqn:Hx;
    destruct (Node.validate_confidence (Node.confidence n)) as [c|ec] eqn:Hc;
    try done; intros [= <-]; (split; [done|]); simpl.
  all: try (apply validate_id_invalid in Hi as ->).
  all: try (apply validate_text_invalid in Hx as ->).
  all: try (apply validate_confidence_invalid in Hc as [-> | ->]).
  all: done.
Qed.

(** X2. The errors of a rejected node: there is at least one, each is one of
    the four errors of the fields (empty id, empty text, confidence above 1,
    confidence below 0), none is reported twice, and the two confidence
    errors never come together. *)
Theorem X2_node_errors_closed (i : str) (ty : NodeType) (x : str)
    (s : option str) (c : option float) (errs : list ErrorDetails) :
  Node.new i ty x s c = Raise (ValidationError errs) →
  errs ≠ []
  ∧ Forall (λ e, e ∈ [empty_id_error; empty_text_error;
                      confidence_above_error; confidence_below_error]) errs
  ∧ NoDup errs
  ∧ ¬ (confidence_above_error ∈ errs ∧ confidence_below_error ∈ errs).
Proof.
  unfold Node.new, Node.model_validate.
  destruct (Node.validate _) as [|errs'] eqn:Hn; [done|].
  intros [= <-]. apply node_validate_invalid in Hn as [-> Hne]. simpl in *.
  split; [done|].
  destruct (validate_id_errors i) as [-> | ->];
    destruct (validate_text_errors x) as [-> | ->];
    destruct (validate_confidence_errors c) as [-> | [-> | ->]]; simpl;
    (split; [repeat constructor|]);
    (split; [repeat (apply NoDup_cons; split;
                     [intros H; member_cases H; discriminate H|]);
             apply NoDup_nil_2|]);
    intros [H1 H2]; member_cases H1; member_cases H2;
    discriminate H1 || discriminate H2.
Qed.

Lemma X2_node_errors_closed_witness :
  [empty_id_error; empty_text_error; confidence_above_error] ≠ []
  ∧ Forall (λ e, e ∈ [empty_id_error; empty_text_error;
                      confidence_above_error; confidence_below_error])
      [empty_id_error; empty_text_error; confidence_above_error]
  ∧ NoDup [empty_id_error; empty_text_error; confidence_above_error]
  ∧ ¬ (confidence_above_error
         ∈ [empty_id_error; empty_text_error; confidence_above_error]
       ∧ confidence_below_error
         ∈ [empty_id_error; empty_text_error; confidence_above_error]).
Proof.
  apply (X2_node_errors_closed (lit " ") CLAIM (lit "") None (Some f_1_5)).
  reflexivity.
Defined.

(** ** Further properties of the graph validator *)

Lemma check_edges_ok_inv (g : ReasoningGraph.t) (es : list Edge.t) :
  ReasoningGraph.check_edges (list_to_set (ReasoningGraph.ids g)) es = Ok tt →
  Forall (resolved g) es.
Proof.
  induction es as [|e es IH]; simpl; [constructor|].
  destruct (bool_decide_reflect
              (Edge.source e ∈ (list_to_set (ReasoningGraph.ids g) : gset str)))
    as [Hs|Hs]; simpl; [|done].
  destruct (bool_decide_reflect
              (Edge.target e ∈ (list_to_set (ReasoningGraph.ids g) : gset str)))
    as [Ht|Ht]; simpl; [|done].
  intros H. constructor; [|by apply IH].
  by split; apply node_id_of_ids.
Qed.

(** [validate_graph] accepts exactly the graphs without a repeated id and
    without an edge that has a missing end. *)
Lemma validate_graph_accepts (g : ReasoningGraph.t) :
  ReasoningGraph.validate_graph g = Ok g
  ↔ NoDup (ReasoningGraph.ids g) ∧ Forall (resolved g) (ReasoningGraph.edges g).
Proof.
  split.
  - intros H. destruct (decide (NoDup (ReasoningGraph.ids g))) as [Hnd|Hnd].
    + split; [done|]. rewrite validate_graph_NoDup in H by done.
      apply check_edges_ok_inv.
      by destruct (ReasoningGraph.check_edges _ _) as [[]|].
    + by rewrite validate_graph_duplicate in H.
  - intros [Hnd Hall]. by rewrite validate_graph_NoDup, check_edges_resolved.
Qed.

Lemma not_NoDup_has_duplicate_ids (ns : list Node.t) :
  ¬ NoDup (Node.id <$> ns) → has_duplicate_ids ns.
Proof.
  induction ns as [|n ns IH]; intros H; [destruct H; constructor|].
  destruct (decide (Node.id n ∈ Node.id <$> ns)) as [Hin|Hnin].
  - apply list_elem_of_fmap in Hin as (b & Hb & [j Hj]%list_elem_of_lookup).
    exists 0, (S j), n, b. by repeat split.
  - destruct IH as (i & j & a & b & Hij & Ha & Hb & Hab).
    + intros Hnd. apply H. simpl. by constructor.
    + exists (S i), (S j), a, b. repeat split; try done. lia.
Qed.

(** X3. A graph that [validate_graph] accepts has pairwise distinct node ids,
    and both ends of each of its edges are ids of its nodes. *)
Theorem X3_accepted_graph_integrity (g g' : ReasoningGraph.t) :
  ReasoningGraph.validate_graph g = Ok g' →
  pairwise_distinct_ids (ReasoningGraph.nodes g')
  ∧ Forall (resolved g') (ReasoningGraph.edges g').
Proof.
  intros H. pose proof (validate_graph_returns_self g g' H) as ->.
  apply validate_graph_accepts in H as [Hnd Hall].
  split; [by apply pairwise_distinct_ids_NoDup | done].
Qed.

Lemma X3_accepted_graph_integrity_witness :
  pairwise_distinct_ids (ReasoningGraph.nodes mistyped_graph)
  ∧ Forall (resolved mistyped_graph) (ReasoningGraph.edges mistyped_graph).
Proof.
  apply (X3_accepted_graph_integrity mistyped_graph mistyped_graph).
  vm_compute. reflexivity.
Defined.

(** X4. What [validate_graph] raises is accurate. The duplicate-id error is
    raised only for a graph in which two nodes have the same id. Any other
    error is raised for a graph with pairwise distinct ids, and names an
    end, missing among the node ids, of the first edge that has a missing
    end: its source, or its target when the source is a node id. *)
Theorem X4_graph_errors_accurate (g : ReasoningGraph.t) (r : value_exn) :
  ReasoningGraph.validate_graph g = Raise r →
  (r = duplicate_id_error ∧ has_duplicate_ids (ReasoningGraph.nodes g))
  ∨ (pairwise_distinct_ids (ReasoningGraph.nodes g)
     ∧ ∃ pre e post,
         ReasoningGraph.edges g = pre ++ e :: post
         ∧ Forall (resolved g) pre
         ∧ ((r = source_not_found (Edge.source e)
             ∧ ¬ node_id_of g (Edge.source e))
            ∨ (r = target_not_found (Edge.target e)
               ∧ node_id_of g (Edge.source e)
               ∧ ¬ node_id_of g (Edge.target e)))).
Proof.
  intros H. destruct (decide (NoDup (ReasoningGraph.ids g))) as [Hnd|Hnd].
  - right. split; [by apply pairwise_distinct_ids_NoDup|].
    rewrite validate_graph_NoDup in H by done.
    assert (Exists (λ e, ¬ resolved g e) (ReasoningGraph.edges g)) as Hex.
    { apply not_Forall_Exists; [apply _|]. intros Hall.
      by rewrite check_edges_resolved in H. }
    destruct (first_unresolved g _ Hex) as (pre & e & post & Hes & Hpre & He).
    exists pre, e, post. split; [done|]. split; [done|].
    rewrite Hes, check_edges_first in H by done.
    destruct (decide (node_id_of g (Edge.source e))) as [Hs|Hs].
    + destruct (decide (node_id_of g (Edge.target e))) as [Ht|Ht].
      * exfalso. apply He. by split.
      * right. by injection H as <-.
    + left. by injection H as <-.
  - left. rewrite validate_graph_duplicate in H by done.
    injection H as <-. split; [done|]. by apply not_NoDup_has_duplicate_ids.
Qed.

Lemma X4_graph_errors_accurate_witness :
  (target_not_found (lit "y") = duplicate_id_error
   ∧ has_duplicate_ids [node_c1; node_e1])
  ∨ (pairwise_distinct_ids [node_c1; node_e1]
     ∧ ∃ pre e post,
         [edge_e1_c1; edge_c1_y; edge_x_c1] = pre ++ e :: post
         ∧ Forall (resolved (ReasoningGraph.Build [node_c1; node_e1]
                               [edge_e1_c1; edge_c1_y; edge_x_c1])) pre
         ∧ ((target_not_found (lit "y") = source_not_found (Edge.source e)
             ∧ ¬ node_id_of (ReasoningGraph.Build [node_c1; node_e1]
                               [edge_e1_c1; edge_c1_y; edge_x_c1]) (Edge.source e))
            ∨ (target_not_found (lit "y") = target_not_found (Edge.target e)
               ∧ node_id_of (ReasoningGraph.Build [node_c1; node_e1]
                               [edge_e1_c1; edge_c1_y; edge_x_c1]) (Edge.source e)
               ∧ ¬ node_id_of (ReasoningGraph.Build [node_c1; node_e1]
                                 [edge_e1_c1; edge_c1_y; edge_x_c1]) (Edge.target e)))).
Proof.
  apply (X4_graph_errors_accurate
           (ReasoningGraph.Build [node_c1; node_e1] [edge_e1_c1; edge_c1_y; edge_x_c1])
           (target_not_found (lit "y"))).
  vm_compute. reflexivity.
Defined.

Lemma node_id_of_elem_of (g : ReasoningGraph.t) (x : str) :
  node_id_of g x ↔ x ∈ ReasoningGraph.ids g.
Proof. by rewrite node_id_of_ids, elem_of_list_to_set. Qed.

(** X5. Whether [validate_graph] accepts a graph does not depend on the
    order of its nodes or of its edges. *)
Theorem X5_acceptance_order_independent (g g' : ReasoningGraph.t) :
  ReasoningGraph.nodes g ≡ₚ ReasoningGraph.nodes g' →
  ReasoningGraph.edges g ≡ₚ ReasoningGraph.edges g' →
  ReasoningGraph.validate_graph g = Ok g
  ↔ ReasoningGraph.validate_graph g' = Ok g'.
Proof.
  intros Hn He. rewrite !validate_graph_accepts.
  assert (ReasoningGraph.ids g ≡ₚ ReasoningGraph.ids g') as Hids
    by (unfold ReasoningGraph.ids; by rewrite Hn).
  assert (∀ e, resolved g e ↔ resolved g' e) as Hres.
  { intros e. unfold resolved. rewrite !node_id_of_elem_of. by rewrite Hids. }
  rewrite Hids, He. rewrite !Forall_forall.
  split; intros [Hnd Hall]; (split; [done|]); intros e Hin; apply Hres; by apply Hall.
Qed.

Lemma X5_acceptance_order_independent_witness :
  ReasoningGraph.validate_graph mistyped_graph = Ok mistyped_graph
  ↔ ReasoningGraph.validate_graph
      (ReasoningGraph.Build [node_c2; node_c1; node_e1]
         [Edge.Build (lit "e1") (lit "c1") IMPLIES; edge_c2_c1;
          Edge.Build (lit "c1") (lit "e1") DEPENDS_ON])
    = Ok (ReasoningGraph.Build [node_c2; node_c1; node_e1]
            [Edge.Build (lit "e1") (lit "c1") IMPLIES; edge_c2_c1;
             Edge.Build (lit "c1") (lit "e1") DEPENDS_ON]).
Proof.
  apply (X5_acceptance_order_independent mistyped_graph
           (ReasoningGraph.Build [node_c2; node_c1; node_e1]
              [Edge.Build (lit "e1") (lit "c1") IMPLIES; edge_c2_c1;
               Edge.Build (lit "c1") (lit "e1") DEPENDS_ON])).
  - apply perm_swap.
  - apply perm_swap.
Defined.

Lemma check_edges_endpoints (id_set : gset str) (es es' : list Edge.t) :
  endpoints <$> es = endpoints <$> es' →
  ReasoningGraph.check_edges id_set es = ReasoningGraph.check_edges id_set es'.
Proof.
  revert es'. induction es as [|e es IH]; intros [|e' es']; try done.
  intros [= Hs Ht Hes]. simpl. rewrite Hs, Ht. by rewrite (IH es').
Qed.

(** X6. [validate_graph] looks at nothing but the ids of the nodes and the
    ends of the edges: two graphs with the same sequence of ids and the same
    sequence of ends are both accepted or both rejected, with the same
    error, whatever the kinds, texts, sources and confidences are. *)
Theorem X6_outcome_depends_on_ids_and_ends (g g' : ReasoningGraph.t) :
  ReasoningGraph.ids g = ReasoningGraph.ids g' →
  endpoints <$> ReasoningGraph.edges g = endpoints <$> ReasoningGraph.edges g' →
  (ReasoningGraph.validate_graph g = Ok g
   ↔ ReasoningGraph.validate_graph g' = Ok g')
  ∧ ∀ r, ReasoningGraph.validate_graph g = Raise r
         ↔ ReasoningGraph.validate_graph g' = Raise r.
Proof.
  intros Hids Hes. unfold ReasoningGraph.validate_graph.
  rewrite Hids, (check_edges_endpoints _ _ _ Hes).
  destruct (negb _); [naive_solver|].
  destruct (ReasoningGraph.check_edges _ _); naive_solver.
Qed.

Lemma X6_outcome_depends_on_ids_and_ends_witness :
  (ReasoningGraph.validate_graph scenario_graph = Ok scenario_graph
   ↔ ReasoningGraph.validate_graph
       (ReasoningGraph.Build
          [Node.Build (lit "c1") ASSUMPTION (lit "?") (Some (lit "log")) (Some f_one);
           Node.Build (lit "e1") ASSUMPTION (lit "!") None (Some f_zero)]
          [Edge.Build (lit "e1") (lit "c1") CONTRADICTS])
     = Ok (ReasoningGraph.Build
          [Node.Build (lit "c1") ASSUMPTION (lit "?") (Some (lit "log")) (Some f_one);
           Node.Build (lit "e1") ASSUMPTION (lit "!") None (Some f_zero)]
          [Edge.Build (lit "e1") (lit "c1") CONTRADICTS]))
  ∧ ∀ r, ReasoningGraph.validate_graph scenario_graph = Raise r
         ↔ ReasoningGraph.validate_graph
             (ReasoningGraph.Build
                [Node.Build (lit "c1") ASSUMPTION (lit "?") (Some (lit "log")) (Some f_one);
                 Node.Build (lit "e1") ASSUMPTION (lit "!") None (Some f_zero)]
                [Edge.Build (lit "e1") (lit "c1") CONTRADICTS])
           = Raise r.
Proof.
  apply (X6_outcome_depends_on_ids_and_ends scenario_graph
           (ReasoningGraph.Build
              [Node.Build (lit "c1") ASSUMPTION (lit "?") (Some (lit "log")) (Some f_one);
               Node.Build (lit "e1") ASSUMPTION (lit "!") None (Some f_zero)]
              [Edge.Build (lit "e1") (lit "c1") CONTRADICTS]));
    reflexivity.
Defined.

(** ** Further properties of construction from candidate data *)

Lemma validate_nodes_accepted (k : nat) (l l' : list Node.t) :
  ReasoningGraph.validate_nodes k l = Valid l' →
  Forall (λ n, Node.validate n = Valid (stored n)) l.
Proof.
  revert k l'. induction l as [|n l IH]; intros k l'; simpl; [constructor|].
  destruct (Node.validate n) as [n1|] eqn:Hn; simpl;
    destruct (ReasoningGraph.validate_nodes (S k) l) as [l1|] eqn:Hl; try done.
  intros _. constructor; [|by eapply IH].
  by rewrite (node_validate_valid n n1 Hn) in Hn.
Qed.

(** What construction of a graph returns: the candidate nodes, each
    accepted on its own and stored with its id stripped, and the candidate
    edges, in a graph that the graph validator accepts. *)
Lemma graph_model_validate_inv (g g' : ReasoningGraph.t) :
  ReasoningGraph.model_validate g = Ok g' →
  g' = ReasoningGraph.Build (stored <$> ReasoningGraph.nodes g) (ReasoningGraph.edges g)
  ∧ Forall (λ n, Node.validate n = Valid (stored n)) (ReasoningGraph.nodes g)
  ∧ ReasoningGraph.validate_graph g' = Ok g'.
Proof.
  intros H. pose proof (graph_model_validate_ok g g' H) as ->.
  unfold ReasoningGraph.model_validate, ReasoningGraph.validate in H.
  rewrite validate_edges_valid in H.
  destruct (ReasoningGraph.validate_nodes 0 (ReasoningGraph.nodes g))
    as [ns|] eqn:Hns; [|done].
  split; [done|]. split; [by eapply validate_nodes_accepted|].
  simpl in H. pose proof (validate_nodes_valid _ _ _ Hns) as ->.
  destruct (ReasoningGraph.validate_graph _) as [g1|[msg]] eqn:Hg; [|done].
  simpl in H. by injection H as ->.
Qed.

Lemma stored_well_formed (n : Node.t) :
  Node.validate n = Valid (stored n) → well_formed_node (stored n).
Proof. intros H. by apply node_validate_well_formed in H as [_ H]. Qed.

(** X7. The ends of an edge are compared as given with the stripped ids of
    the nodes. So in a graph that construction returns every end of every
    edge is a stripped, non-empty string; and a candidate edge with an end
    that is empty or has whitespace at either end makes construction
    fail. *)
Theorem X7_edge_ends_not_stripped (nodes : list Node.t) (edges : list Edge.t) :
  (∀ g, ReasoningGraph.new nodes edges = Ok g →
        ReasoningGraph.edges g = edges
        ∧ Forall (λ e, strip (Edge.source e) = Edge.source e
                       ∧ Edge.source e ≠ []
                       ∧ strip (Edge.target e) = Edge.target e
                       ∧ Edge.target e ≠ []) edges)
  ∧ (Exists (λ e, strip (Edge.source e) ≠ Edge.source e
                  ∨ strip (Edge.target e) ≠ Edge.target e) edges →
     ∃ r, ReasoningGraph.new nodes edges = Raise r).
Proof.
  assert (∀ g, ReasoningGraph.new nodes edges = Ok g →
            ReasoningGraph.edges g = edges
            ∧ Forall (λ e, strip (Edge.source e) = Edge.source e
                           ∧ Edge.source e ≠ []
                           ∧ strip (Edge.target e) = Edge.target e
                           ∧ Edge.target e ≠ []) edges) as Hok.
  { intros g Hg. unfold ReasoningGraph.new in Hg.
    apply graph_model_validate_inv in Hg as (-> & Hns & Hg). simpl in *.
    split; [done|].
    apply validate_graph_accepts in Hg as [_ Hall]. simpl in Hall.
    assert (∀ x, node_id_of (ReasoningGraph.Build (stored <$> nodes) edges) x →
                 strip x = x ∧ x ≠ []) as Hid.
    { intros x (n' & Hin & <-)%Exists_exists. simpl in Hin.
      apply list_elem_of_fmap in Hin as (n & -> & Hin).
      rewrite Forall_forall in Hns.
      destruct (stored_well_formed n (Hns n Hin)) as [Hne _].
      split; [apply strip_idemp | done]. }
    eapply Forall_impl; [exact Hall|].
    intros e [[? ?]%Hid [? ?]%Hid]. done. }
  split; [exact Hok|].
  intros Hex. destruct (ReasoningGraph.new nodes edges) as [g|r] eqn:Hg;
    [|by eexists].
  exfalso. destruct (Hok g eq_refl) as [_ Hall].
  apply Exists_exists in Hex as (e & Hin & He).
  rewrite Forall_forall in Hall. destruct (Hall e Hin) as (? & _ & ? & _).
  by destruct He.
Qed.

Lemma X7_edge_ends_not_stripped_witness :
  (ReasoningGraph.edges scenario_graph = [edge_e1_c1]
   ∧ Forall (λ e, strip (Edge.source e) = Edge.source e
                  ∧ Edge.source e ≠ []
                  ∧ strip (Edge.target e) = Edge.target e
                  ∧ Edge.target e ≠ []) [edge_e1_c1])
  ∧ ∃ r, ReasoningGraph.new
           [Node.Build (lit " c1 ") CLAIM (lit "a claim") None None; node_e1]
           [Edge.Build (lit "e1") (lit " c1 ") SUPPORTS]
         = Raise r.
Proof.
  split.
  - apply (proj1 (X7_edge_ends_not_stripped [node_c1; node_e1] [edge_e1_c1])
             scenario_graph).
    vm_compute. reflexivity.
  - apply (proj2 (X7_edge_ends_not_stripped
                    [Node.Build (lit " c1 ") CLAIM (lit "a claim") None None; node_e1]
                    [Edge.Build (lit "e1") (lit " c1 ") SUPPORTS])).
    apply Exists_cons_hd. right. discriminate.
Defined.

Lemma output_model_validate_inv (o o' : Output.t) :
  Output.model_validate o = Ok o' →
  ∃ g', ReasoningGraph.model_validate (Output.graph o) = Ok g'
        ∧ o' = Output.Build (Output.text o) g'.
Proof.
  unfold Output.model_validate, Output.validate, ReasoningGraph.model_validate.
  destruct (ReasoningGraph.validate (Output.graph o)) as [g1|]; [|done].
  simpl. intros [= <-]. by exists g1.
Qed.

(** What construction establishes for the graph of an [Output] *)
Lemma constructed_output_graph (text : str) (g : ReasoningGraph.t) (out : Output.t) :
  Output.new text g = Ok out →
  NoDup (ReasoningGraph.ids (Output.graph out))
  ∧ Forall (resolved (Output.graph out)) (ReasoningGraph.edges (Output.graph out)).
Proof.
  intros (g' & Hg & ->)%output_model_validate_inv. simpl in *.
  apply graph_model_validate_inv in Hg as (-> & _ & Hg).
  by apply validate_graph_accepts in Hg.
Qed.

(** X8. An [Output] that construction returns carries the given text and a
    graph in which every node is well formed, the node ids are pairwise
    distinct, and both ends of every edge are ids of nodes. *)
Theorem X8_constructed_output_guarantee (text : str) (g : ReasoningGraph.t)
    (out : Output.t) :
  Output.new text g = Ok out →
  Output.text out = text
  ∧ Forall well_formed_node (ReasoningGraph.nodes (Output.graph out))
  ∧ pairwise_distinct_ids (ReasoningGraph.nodes (Output.graph out))
  ∧ Forall (resolved (Output.graph out)) (ReasoningGraph.edges (Output.graph out)).
Proof.
  intros (g' & Hg & ->)%output_model_validate_inv. simpl in *.
  apply graph_model_validate_inv in Hg as (-> & Hns & Hg).
  apply validate_graph_accepts in Hg as [Hnd Hall].
  split; [done|]. split; [|split]; [|by apply pairwise_distinct_ids_NoDup|done].
  simpl. apply Forall_fmap. eapply Forall_impl; [exact Hns|].
  intros n Hn. by apply stored_well_formed.
Qed.

Lemma X8_constructed_output_guarantee_witness :
  Output.text (Output.Build (lit "why") mistyped_graph) = lit "why"
  ∧ Forall well_formed_node [node_c1; node_c2; node_e1]
  ∧ pairwise_distinct_ids [node_c1; node_c2; node_e1]
  ∧ Forall (resolved mistyped_graph) (ReasoningGraph.edges mistyped_graph).
Proof.
  apply (X8_constructed_output_guarantee (lit "why")
           (ReasoningGraph.Build
              [Node.Build (lit " c1") CLAIM (lit "off-by-one bug") None None;
               node_c2;
               Node.Build (lit "e1 ") EVIDENCE (lit "IndexError on n=0") None None]
              (ReasoningGraph.edges mistyped_graph))
           (Output.Build (lit "why") mistyped_graph)).
  vm_compute. reflexivity.
Defined.

Lemma stored_idemp (n : Node.t) : stored (stored n) = stored n.
Proof. unfold stored. simpl. by rewrite strip_idemp. Qed.

(** A node that was accepted is accepted again, and stored as it is. *)
Lemma node_revalidate (n : Node.t) :
  Node.validate n = Valid (stored n) → Node.validate (stored n) = Valid (stored n).
Proof.
  intros H. pose proof (stored_well_formed n H) as (Hid & _ & _ & Hx & _).
  simpl in Hid, Hx.
  assert (Node.validate_confidence (Node.confidence n) = Valid (Node.confidence n))
    as Hc.
  { unfold Node.validate in H.
    destruct (Node.validate_id (Node.id n)); [|done].
    destruct (Node.validate_text (Node.text n)); [|done].
    destruct (Node.validate_confidence (Node.confidence n)) as [c|] eqn:Hc;
      [|done].
    by apply validate_confidence_valid in Hc as [-> _]. }
  unfold Node.validate. simpl.
  rewrite validate_id_strip by (by rewrite strip_whitespace, strip_idemp).
  rewrite validate_text_nonempty, Hc by done.
  unfold stored. simpl. by rewrite strip_idemp.
Qed.

(** X9. Construction is idempotent: an [Output] that construction returned
    is accepted when it is given to construction again, and comes back
    unchanged. *)
Theorem X9_construction_idempotent (o o' : Output.t) :
  Output.model_validate o = Ok o' → Output.model_validate o' = Ok o'.
Proof.
  intros (g' & Hg & ->)%output_model_validate_inv.
  apply graph_model_validate_inv in Hg as (-> & Hns & Hg).
  unfold Output.model_validate, Output.validate, ReasoningGraph.validate. simpl.
  rewrite validate_edges_valid.
  rewrite (validate_nodes_all 0 (stored <$> ReasoningGraph.nodes (Output.graph o))).
  - rewrite <- list_fmap_compose.
    rewrite (list_fmap_ext (stored ∘ stored) stored) by (intros; apply stored_idemp).
    simpl. by rewrite Hg.
  - apply Forall_fmap. eapply Forall_impl; [exact Hns|].
    intros n Hn. exists (stored n). unfold Node.model_validate. simpl.
    by rewrite (node_revalidate n Hn).
Qed.

Lemma X9_construction_idempotent_witness :
  Output.model_validate (Output.Build (lit "why") mistyped_graph)
  = Ok (Output.Build (lit "why") mistyped_graph).
Proof.
  apply (X9_construction_idempotent
           (Output.Build (lit "why")
              (ReasoningGraph.Build
                 [Node.Build (lit " c1") CLAIM (lit "off-by-one bug") None None;
                  node_c2;
                  Node.Build (lit "e1 ") EVIDENCE (lit "IndexError on n=0") None None]
                 (ReasoningGraph.edges mistyped_graph)))).
  vm_compute. reflexivity.
Defined.

Lemma validate_nodes_cons_errors (k : nat) (n : Node.t) (l : list Node.t) :
  errors_of (ReasoningGraph.validate_nodes k (n :: l))
  = (under (Idx k) <$> errors_of (Node.validate n))
      ++ errors_of (ReasoningGraph.validate_nodes (S k) l).
Proof.
  simpl. by destruct (Node.validate n), (ReasoningGraph.validate_nodes (S k) l).
Qed.

(** The errors of a node sequence are the errors of its nodes, each under
    the index of its node. *)
Lemma validate_nodes_errors (k : nat) (l : list Node.t) (e : ErrorDetails) :
  e ∈ errors_of (ReasoningGraph.validate_nodes k l)
  ↔ ∃ j n e0, l !! j = Some n ∧ e0 ∈ errors_of (Node.validate n)
              ∧ e = under (Idx (k + j)) e0.
Proof.
  revert k. induction l as [|n l IH]; intros k.
  - simpl. rewrite elem_of_nil. split; [done|]. by intros (j & ? & ? & ? & _).
  - rewrite validate_nodes_cons_errors, elem_of_app, list_elem_of_fmap, IH.
    split.
    + intros [(e0 & -> & He0)|(j & n' & e0 & Hj & He0 & ->)].
      * exists 0, n, e0. by rewrite Nat.add_0_r.
      * exists (S j), n', e0. by rewrite Nat.add_succ_r.
    + intros ([|j] & n' & e0 & Hj & He0 & ->); simpl in Hj.
      * injection Hj as <-. left. exists e0. by rewrite Nat.add_0_r.
      * right. exists j, n', e0. by rewrite Nat.add_succ_r.
Qed.

(** X10. The errors of the nodes come first. When some candidate node is
    rejected on its own, construction of the graph raises the errors of the
    rejected nodes, each placed at the index of its node under [nodes], and
    nothing else: every node is validated, and the graph validator is not
    run, whatever ids repeat and whatever edges dangle. *)
Theorem X10_node_errors_first (nodes : list Node.t) (edges : list Edge.t) :
  Exists rejected nodes →
  ∃ errs, ReasoningGraph.new nodes edges = Raise (ValidationError errs)
          ∧ errs ≠ []
          ∧ ∀ e, e ∈ errs
                 ↔ ∃ j n e0, nodes !! j = Some n
                             ∧ e0 ∈ errors_of (Node.validate n)
                             ∧ e = at_node j e0.
Proof.
  intros Hex. unfold ReasoningGraph.new, ReasoningGraph.model_validate,
    ReasoningGraph.validate. simpl. rewrite validate_edges_valid.
  destruct (ReasoningGraph.validate_nodes 0 nodes) as [ns|errs0] eqn:Hns.
  { exfalso. apply validate_nodes_accepted in Hns.
    apply Exists_exists in Hex as (n & Hin & es & Hn).
    rewrite Forall_forall in Hns. rewrite (Hns n Hin) in Hn. done. }
  simpl. rewrite app_nil_r. eexists. split; [reflexivity|].
  assert (∀ e, e ∈ under (Key "nodes") <$> errs0
               ↔ ∃ j n e0, nodes !! j = Some n
                           ∧ e0 ∈ errors_of (Node.validate n)
                           ∧ e = at_node j e0) as Hiff.
  { intros e. rewrite list_elem_of_fmap.
    change errs0 with (errors_of (Invalid (A:=list Node.t) errs0)).
    rewrite <- Hns. split.
    - intros (e1 & -> & (j & n & e0 & Hj & He0 & ->)%validate_nodes_errors).
      by exists j, n, e0.
    - intros (j & n & e0 & Hj & He0 & ->).
      exists (under (Idx j) e0). split; [done|].
      apply validate_nodes_errors. by exists j, n, e0. }
  split; [|exact Hiff].
  apply Exists_exists in Hex as (n & [j Hj]%list_elem_of_lookup & es & Hn).
  pose proof (node_validate_invalid n es Hn) as [_ Hne].
  destruct es as [|e0 es]; [done|].
  intros Hnil. apply (elem_of_nil (at_node j e0)). rewrite <- Hnil.
  apply Hiff. exists j, n, e0. rewrite Hn. split; [done|].
  split; [apply list_elem_of_here | done].
Qed.

Lemma X10_node_errors_first_witness :
  ∃ errs,
    ReasoningGraph.new
      [node_c1; Node.Build (lit "  ") CLAIM (lit "") None None; node_c1]
      [edge_x_c1]
    = Raise (ValidationError errs)
    ∧ errs ≠ []
    ∧ ∀ e, e ∈ errs
           ↔ ∃ j n e0,
               [node_c1; Node.Build (lit "  ") CLAIM (lit "") None None; node_c1]
                 !! j = Some n
               ∧ e0 ∈ errors_of (Node.validate n)
               ∧ e = at_node j e0.
Proof.
  apply (X10_node_errors_first
           [node_c1; Node.Build (lit "  ") CLAIM (lit "") None None; node_c1]
           [edge_x_c1]).
  apply Exists_cons_tl, Exists_cons_hd. eexists. reflexivity.
Defined.

(** ** Further properties of the export *)

(** X11. An item of [nodes] that is a dict needs the keys [id], [text] and
    [type], and takes [source] and [confidence] when they are there: with
    the three keys its element is built, [source] and [confidence] being
    [None] when the key is absent; without one of them [KeyError] is raised
    for the first that is absent, in the order [id], [text], [type]. An
    item that is not a dict raises [TypeError]. *)
Theorem X11_node_element_keys (d : list (str * pyval)) :
  (∀ i x ty,
     dict_lookup (lit "id") d = Some i →
     dict_lookup (lit "text") d = Some x →
     dict_lookup (lit "type") d = Some ty →
     node_element (PyDict d)
     = Ok (PyDict
             [ (lit "data",
                PyDict [ (lit "id", i);
                         (lit "label", x);
                         (lit "type", ty);
                         (lit "source", lookup_or_none (lit "source") d);
                         (lit "confidence", lookup_or_none (lit "confidence") d) ]) ]))
  ∧ (dict_lookup (lit "id") d = None →
     node_element (PyDict d) = Raise (KeyError (lit "id")))
  ∧ (is_Some (dict_lookup (lit "id") d) →
     dict_lookup (lit "text") d = None →
     node_element (PyDict d) = Raise (KeyError (lit "text")))
  ∧ (is_Some (dict_lookup (lit "id") d) →
     is_Some (dict_lookup (lit "text") d) →
     dict_lookup (lit "type") d = None →
     node_element (PyDict d) = Raise (KeyError (lit "type")))
  ∧ (∀ v, (∀ d', v ≠ PyDict d') → node_element v = Raise TypeError).
Proof.
  unfold node_element, getitem, get, lookup_or_none.
  split; [|split; [|split; [|split]]].
  - intros i x ty -> -> ->. simpl.
    by destruct (dict_lookup (lit "source") d),
      (dict_lookup (lit "confidence") d).
  - by intros ->.
  - by intros [i ->] ->.
  - by intros [i ->] [x ->] ->.
  - intros v Hv. destruct v as [| | | |d']; try done. by destruct (Hv d').
Qed.

Lemma X11_node_element_keys_witness :
  node_element
    (PyDict [ (lit "type", PyStr (lit "Claim")); (lit "id", PyStr (lit "c1"));
              (lit "text", PyStr (lit "a claim")) ])
  = Ok (PyDict
          [ (lit "data",
             PyDict [ (lit "id", PyStr (lit "c1"));
                      (lit "label", PyStr (lit "a claim"));
                      (lit "type", PyStr (lit "Claim"));
                      (lit "source", PyNone);
                      (lit "confidence", PyNone) ]) ])
  ∧ node_element (PyDict [ (lit "text", PyStr (lit "a claim")) ])
    = Raise (KeyError (lit "id"))
  ∧ node_element (PyDict [ (lit "id", PyStr (lit "c1")); (lit "source", PyNone) ])
    = Raise (KeyError (lit "text"))
  ∧ node_element
      (PyDict [ (lit "id", PyStr (lit "c1")); (lit "text", PyStr (lit "a claim")) ])
    = Raise (KeyError (lit "type"))
  ∧ node_element (PyStr (lit "c1")) = Raise TypeError.
Proof.
  split; [|split; [|split; [|split]]].
  - exact (proj1 (X11_node_element_keys
      [ (lit "type", PyStr (lit "Claim")); (lit "id", PyStr (lit "c1"));
        (lit "text", PyStr (lit "a claim")) ])
      (PyStr (lit "c1")) (PyStr (lit "a claim")) (PyStr (lit "Claim"))
      eq_refl eq_refl eq_refl).
  - exact (proj1 (proj2 (X11_node_element_keys
      [ (lit "text", PyStr (lit "a claim")) ])) eq_refl).
  - apply (proj1 (proj2 (proj2 (X11_node_element_keys
      [ (lit "id", PyStr (lit "c1")); (lit "source", PyNone) ])))).
    + by eexists.
    + reflexivity.
  - apply (proj1 (proj2 (proj2 (proj2 (X11_node_element_keys
      [ (lit "id", PyStr (lit "c1")); (lit "text", PyStr (lit "a claim")) ]))))).
    + by eexists.
    + by eexists.
    + reflexivity.
  - apply (proj2 (proj2 (proj2 (proj2 (X11_node_element_keys []))))).
    discriminate.
Defined.

Lemma split_at_first (c : N) (l1 l2 r1 r2 : str) :
  c ∉ l1 → c ∉ l2 → l1 ++ c :: r1 = l2 ++ c :: r2 → l1 = l2 ∧ r1 = r2.
Proof.
  revert l2. induction l1 as [|a l1 IH]; intros [|b l2] H1 H2 Heq; simpl in *.
  - by injection Heq as ->.
  - injection Heq as -> _. destruct H2. apply list_elem_of_here.
  - injection Heq as -> _. destruct H1. apply list_elem_of_here.
  - injection Heq as -> Heq. destruct (IH l2) as [-> ->]; try done.
    + intros H. apply H1. by apply list_elem_of_further.
    + intros H. apply H2. by apply list_elem_of_further.
Qed.

Lemma EdgeType_value_inj (k k' : EdgeType) :
  EdgeType_value k = EdgeType_value k' → k = k'.
Proof. destruct k, k'; intros H; try reflexivity; discriminate H. Qed.

Lemma NodeType_value_inj (k k' : NodeType) :
  NodeType_value k = NodeType_value k' → k = k'.
Proof. destruct k, k'; intros H; try reflexivity; discriminate H. Qed.

Lemma EdgeType_value_no_colon (k : EdgeType) : colon ∉ EdgeType_value k.
Proof. destruct k; by_compute. Qed.

(** X12. Edges whose sources contain no ['>'] get distinct element ids
    when they differ in source, target or kind. Without the condition the
    ids can coincide: the edge from ["a->b"] to ["c"] and the edge from
    ["a"] to ["b->c"], both of kind [supports], get the same id. *)
Theorem X12_edge_element_id_injective :
  (∀ e e', greater ∉ Edge.source e → greater ∉ Edge.source e' → e ≠ e' →
           edge_element_id e ≠ edge_element_id e')
  ∧ edge_ab_c ≠ edge_a_bc
  ∧ edge_element_id edge_ab_c = edge_element_id edge_a_bc.
Proof.
  split; [|split; [discriminate | reflexivity]].
  intros [s t k] [s' t' k'] Hs Hs' Hne Heq. apply Hne.
  unfold edge_element_id in Heq. simpl in *.
  apply (split_at_first colon) in Heq as [Hk Heq];
    [|apply EdgeType_value_no_colon..].
  apply EdgeType_value_inj in Hk as ->.
  change (s ++ hyphen :: greater :: t = s' ++ hyphen :: greater :: t') in Heq.
  rewrite (cons_middle hyphen s), (cons_middle hyphen s'), !app_assoc in Heq.
  apply (split_at_first greater) in Heq as [Hss ->].
  - by apply app_inj_tail in Hss as [-> _].
  - rewrite elem_of_app, list_elem_of_singleton. intros [?|?]; [done|discriminate].
  - rewrite elem_of_app, list_elem_of_singleton. intros [?|?]; [done|discriminate].
Qed.

Lemma X12_edge_element_id_injective_witness :
  edge_element_id edge_e1_c1 ≠ edge_element_id edge_c2_c1
  ∧ edge_element_id edge_e1_c1
    ≠ edge_element_id (Edge.Build (lit "e1") (lit "c1") CONTRADICTS).
Proof.
  split.
  - apply (proj1 X12_edge_element_id_injective edge_e1_c1 edge_c2_c1);
      [by_compute | by_compute | discriminate].
  - apply (proj1 X12_edge_element_id_injective edge_e1_c1
             (Edge.Build (lit "e1") (lit "c1") CONTRADICTS));
      [by_compute | by_compute | discriminate].
Defined.

Lemma node_record_inj (n n' : Node.t) : node_record n = node_record n' → n = n'.
Proof.
  destruct n as [i ty x s c], n' as [i' ty' x' s' c'].
  unfold node_record, node_data. simpl. intros [= -> -> Hty Hs Hc].
  apply NodeType_value_inj in Hty as ->.
  destruct s, s'; try discriminate Hs; destruct c, c'; try discriminate Hc;
    congruence.
Qed.

Lemma edge_record_inj (e e' : Edge.t) : edge_record e = edge_record e' → e = e'.
Proof.
  destruct e as [s t k], e' as [s' t' k'].
  unfold edge_record. simpl. intros [= _ -> -> Hk].
  by apply EdgeType_value_inj in Hk as ->.
Qed.

Lemma fmap_eq_inj {A B} (f : A → B) (l l' : list A) :
  (∀ a a', f a = f a' → a = a') → f <$> l = f <$> l' → l = l'.
Proof.
  intros Hf. revert l'. induction l as [|a l IH]; intros [|a' l']; try done.
  intros [= Ha Hl]. f_equal; [by apply Hf | by apply IH].
Qed.

Lemma document_inj (o o' : Output.t) : document o = document o' → o = o'.
Proof.
  destruct o as [x [ns es]], o' as [x' [ns' es']]. unfold document. simpl.
  intros [= -> Hns Hes].
  apply (fmap_eq_inj _ _ _ node_record_inj) in Hns as ->.
  by apply (fmap_eq_inj _ _ _ edge_record_inj) in Hes as ->.
Qed.

(** X13. The export loses nothing: outputs that differ, in the text, in a
    node (id, kind, text, source or confidence, an unset one being told
    from every set one) or in an edge, or in the order or the number of
    nodes or edges, have different documents. *)
Theorem X13_export_lossless (py_format : pyval → str) (out out' : Output.t) :
  (∀ s, py_format (PyStr s) = s) →
  out ≠ out' → export py_format out ≠ export py_format out'.
Proof.
  intros Hfmt Hne Heq. apply Hne.
  rewrite !export_document in Heq by done.
  apply document_inj. congruence.
Qed.

Lemma X13_export_lossless_witness :
  export format_of_str
    (Output.Build (lit "why") (ReasoningGraph.Build [node_c1; node_e1] [edge_e1_c1]))
  ≠ export format_of_str
      (Output.Build (lit "why") (ReasoningGraph.Build [node_e1; node_c1] [edge_e1_c1])).
Proof.
  apply (X13_export_lossless format_of_str
           (Output.Build (lit "why") (ReasoningGraph.Build [node_c1; node_e1] [edge_e1_c1]))
           (Output.Build (lit "why") (ReasoningGraph.Build [node_e1; node_c1] [edge_e1_c1]))
           (λ s, eq_refl)).
  discriminate.
Defined.

Lemma node_element_ids (l : list Node.t) :
  mapM (element_field (lit "id")) (node_record <$> l) = Ok (PyStr <$> (Node.id <$> l)).
Proof.
  induction l as [|n l IH]; [done|].
  cbn [fmap list_fmap mapM] in *.
  change (element_field (lit "id") (node_record n))
    with (Ok (E:=lookup_exn) (PyStr (Node.id n))).
  cbn [mbind result_bind]. by rewrite IH.
Qed.

Lemma edge_element_sources (l : list Edge.t) :
  mapM (element_field (lit "source")) (edge_record <$> l)
  = Ok (PyStr <$> (Edge.source <$> l)).
Proof.
  induction l as [|e l IH]; [done|].
  cbn [fmap list_fmap mapM] in *.
  change (element_field (lit "source") (edge_record e))
    with (Ok (E:=lookup_exn) (PyStr (Edge.source e))).
  cbn [mbind result_bind]. by rewrite IH.
Qed.

Lemma edge_element_targets (l : list Edge.t) :
  mapM (element_field (lit "target")) (edge_record <$> l)
  = Ok (PyStr <$> (Edge.target <$> l)).
Proof.
  induction l as [|e l IH]; [done|].
  cbn [fmap list_fmap mapM] in *.
  change (element_field (lit "target") (edge_record e))
    with (Ok (E:=lookup_exn) (PyStr (Edge.target e))).
  cbn [mbind result_bind]. by rewrite IH.
Qed.

(** X14. The document exported for a constructed [Output] is a well-linked
    graph: read back, its node elements have pairwise distinct ids, one per
    node in order, and the [source] and the [target] of every edge element
    is the id of one of the node elements. *)
Theorem X14_document_well_linked (py_format : pyval → str) (text : str)
    (g : ReasoningGraph.t) (out : Output.t) (doc : pyval) :
  (∀ s, py_format (PyStr s) = s) →
  Output.new text g = Ok out →
  export py_format out = Ok doc →
  ∃ ids sources targets : list str,
    element_fields doc (lit "nodes") (lit "id") = Ok (PyStr <$> ids)
    ∧ element_fields doc (lit "edges") (lit "source") = Ok (PyStr <$> sources)
    ∧ element_fields doc (lit "edges") (lit "target") = Ok (PyStr <$> targets)
    ∧ ids = Node.id <$> ReasoningGraph.nodes (Output.graph out)
    ∧ NoDup ids
    ∧ Forall (λ x, x ∈ ids) sources
    ∧ Forall (λ x, x ∈ ids) targets.
Proof.
  intros Hfmt Hout Hdoc. rewrite export_document in Hdoc by done.
  assert (doc = document out) as -> by congruence. clear Hdoc.
  destruct (constructed_output_graph text g out Hout) as [Hnd Hall].
  exists (Node.id <$> ReasoningGraph.nodes (Output.graph out)),
    (Edge.source <$> ReasoningGraph.edges (Output.graph out)),
    (Edge.target <$> ReasoningGraph.edges (Output.graph out)).
  split; [apply node_element_ids|]. split; [apply edge_element_sources|].
  split; [apply edge_element_targets|]. split; [done|]. split; [done|].
  split; apply Forall_fmap; (eapply Forall_impl; [exact Hall|]);
    intros e [Hs Ht]; by apply node_id_of_elem_of.
Qed.

Lemma X14_document_well_linked_witness :
  ∃ ids sources targets : list str,
    element_fields (document (Output.Build (lit "why") mistyped_graph))
      (lit "nodes") (lit "id") = Ok (PyStr <$> ids)
    ∧ element_fields (document (Output.Build (lit "why") mistyped_graph))
        (lit "edges") (lit "source") = Ok (PyStr <$> sources)
    ∧ element_fields (document (Output.Build (lit "why") mistyped_graph))
        (lit "edges") (lit "target") = Ok (PyStr <$> targets)
    ∧ ids = Node.id <$> [node_c1; node_c2; node_e1]
    ∧ NoDup ids
    ∧ Forall (λ x, x ∈ ids) sources
    ∧ Forall (λ x, x ∈ ids) targets.
Proof.
  apply (X14_document_well_linked format_of_str (lit "why") mistyped_graph
           (Output.Build (lit "why") mistyped_graph)
           (document (Output.Build (lit "why") mistyped_graph))
           (λ s, eq_refl)).
  - vm_compute. reflexivity.
  - vm_compute. reflexivity.
Defined.

Lemma not_rejected_valid (n : Node.t) :
  ¬ rejected n → Node.validate n = Valid (stored n).
Proof.
  intros H. destruct (Node.validate n) as [n'|errs] eqn:Hn.
  - by rewrite (node_validate_valid n n' Hn).
  - destruct H. by exists errs.
Qed.

(** X15. Construction of a graph from candidate nodes that are each
    accepted on their own succeeds, with the nodes stored under their
    stripped ids and the edges as given, exactly when the stripped ids are
    pairwise distinct and both ends of every edge, as given, are among the
    stripped ids. *)
Theorem X15_construction_accepts (nodes : list Node.t) (edges : list Edge.t) :
  Forall (λ n, ¬ rejected n) nodes →
  ReasoningGraph.new nodes edges
    = Ok (ReasoningGraph.Build (stored <$> nodes) edges)
  ↔ NoDup (strip ∘ Node.id <$> nodes)
    ∧ Forall (λ e, Edge.source e ∈ (strip ∘ Node.id <$> nodes)
                   ∧ Edge.target e ∈ (strip ∘ Node.id <$> nodes)) edges.
Proof.
  intros Hns.
  assert (ReasoningGraph.validate_nodes 0 nodes = Valid (stored <$> nodes)) as Hv.
  { apply validate_nodes_all. eapply Forall_impl; [exact Hns|].
    intros n Hn. exists (stored n). unfold Node.model_validate.
    by rewrite (not_rejected_valid n Hn). }
  unfold ReasoningGraph.new, ReasoningGraph.model_validate,
    ReasoningGraph.validate. simpl. rewrite Hv, validate_edges_valid. simpl.
  set (g' := ReasoningGraph.Build (stored <$> nodes) edges).
  assert (ReasoningGraph.ids g' = (strip ∘ Node.id <$> nodes)) as Hids.
  { unfold ReasoningGraph.ids, g'. simpl. by rewrite <- list_fmap_compose. }
  assert (ReasoningGraph.validate_graph g' = Ok g'
          ↔ NoDup (strip ∘ Node.id <$> nodes)
            ∧ Forall (λ e, Edge.source e ∈ (strip ∘ Node.id <$> nodes)
                           ∧ Edge.target e ∈ (strip ∘ Node.id <$> nodes)) edges)
    as <-.
  { rewrite validate_graph_accepts, Hids. simpl.
    apply and_iff_compat_l, Forall_iff. intros e. unfold resolved.
    by rewrite !node_id_of_elem_of, Hids. }
  destruct (ReasoningGraph.validate_graph g') as [g1|[msg]] eqn:Hg; simpl.
  - apply validate_graph_returns_self in Hg as ->. done.
  - split; intros H; discriminate H.
Qed.

Lemma X15_construction_accepts_witness :
  ReasoningGraph.new
    [Node.Build (lit " c1") CLAIM (lit "off-by-one bug") None None; node_e1]
    [edge_e1_c1]
  = Ok scenario_graph.
Proof.
  apply (X15_construction_accepts
           [Node.Build (lit " c1") CLAIM (lit "off-by-one bug") None None; node_e1]
           [edge_e1_c1]).
  - repeat constructor; intros [errs H]; discriminate H.
  - split; by_compute.
Defined.
